(** * pause_on_voice: a shallow embedding of [pause_on_voice.py]

    The script reads 16-bit mono audio in blocks, cuts every block into
    frames of [BLOCK] samples, band-pass filters each frame, extracts two
    features (energy in dB and zero-crossing rate), tracks a noise baseline
    and taps the space key when speech has been seen for [ONSET_FRAMES]
    frames and the last tap is more than [PRESS_COOLDOWN] seconds old.

    Python floats are modelled as exact rationals ([Q]); rounding is not
    modelled.  The transcendental part of the energy feature (square root
    and logarithm) is not computed here: the detector takes the feature
    values of a frame as given. *)

From Stdlib Require Import List ZArith QArith Qreduction Qpower Bool Arith
  Lia Lqa.
Import ListNotations.

Local Open Scope Q_scope.

(** ** Configuration constants (lines 8-17 and 25-26 of the script) *)

Module Config.

Definition SAMPLE_RATE : Z := 16000.
Definition FRAME_MS : Z := 30.
(** [BLOCK = int(SAMPLE_RATE * FRAME_MS / 1000)] *)
Definition BLOCK : nat := Z.to_nat (SAMPLE_RATE * FRAME_MS / 1000).
Definition PRESS_COOLDOWN : Q := 5 # 2.
Definition ONSET_FRAMES : nat := 4.
Definition RELEASE_FRAMES : nat := 8.
Definition BOOST_DB : Q := 12.
Definition ZCR_RANGE : Q * Q := (1 # 50, 1 # 5).
Definition ADAPT_SECS : Q := 2.
Definition baseline_alpha : Q := 199 # 200.

End Config.

Import Config.

(** ** The detector: the body of the frame loop of [main] (lines 76-107) *)

Module Detector.

(** The module-level state of the script (lines 21-25). *)
Record State : Type := mkState {
  last_press : Q;
  speech_run : nat;
  silence_run : nat;
  have_baseline : bool;
  baseline_db : Q
}.

Definition initial_state : State :=
  {| last_press := 0; speech_run := 0; silence_run := 0;
     have_baseline := false; baseline_db := - (60) |}.

(** What one pass through the loop body reads from outside the state:
    the features of the frame, the value returned by the single
    [time.time()] call made for the frame (line 81 during warm-up, line 99
    afterwards), and whether [keyboard.press_and_release] returns normally
    should it be called. *)
Record Frame : Type := mkFrame {
  db : Q;
  zcr : Q;
  clock : Q;
  press_ok : bool
}.

(** What the pass does at the trigger check. *)
Inductive Outcome : Type :=
| NoTrigger        (* the condition of line 100 is false, or warm-up *)
| Tapped           (* the key press returned normally *)
| KeyboardError.   (* the key press raised, the handler of line 106 ran *)

(** The trace of a pass: the value of [is_speech] ([None] when the frame was
    consumed by the warm-up branch) and what happened at the trigger check. *)
Record Log : Type := mkLog {
  classified : option bool;
  outcome : Outcome
}.

Definition emitted (o : Outcome) : bool :=
  match o with NoTrigger => false | _ => true end.

Definition Qlt_bool (x y : Q) : bool := negb (Qle_bool y x).

(** Python's [min(a, b)]: the first argument unless the second is smaller. *)
Definition py_min (a b : Q) : Q := if Qlt_bool b a then b else a.

(** Lines 79-83. *)
Definition warm_up (start_ts : Q) (st : State) (f : Frame) : State :=
  {| last_press := last_press st;
     speech_run := speech_run st;
     silence_run := silence_run st;
     have_baseline := Qle_bool ADAPT_SECS (clock f - start_ts);
     baseline_db := py_min (baseline_db st) (db f) |}.

(** Line 86. *)
Definition ewma (baseline d : Q) : Q :=
  baseline_alpha * baseline + (1 - baseline_alpha) * d.

(** Line 89, with the baseline already updated. *)
Definition is_speech (baseline : Q) (f : Frame) : bool :=
  Qle_bool (baseline + BOOST_DB) (db f)
  && (Qle_bool (fst ZCR_RANGE) (zcr f) && Qle_bool (zcr f) (snd ZCR_RANGE)).

(** Lines 91-96. *)
Definition update_runs (speech : bool) (st : State) : State :=
  if speech then
    {| last_press := last_press st;
       speech_run := S (speech_run st);
       silence_run := 0;
       have_baseline := have_baseline st;
       baseline_db := baseline_db st |}
  else
    let silence := S (silence_run st) in
    {| last_press := last_press st;
       speech_run := if (RELEASE_FRAMES <=? silence)%nat then 0%nat
                     else speech_run st;
       silence_run := silence;
       have_baseline := have_baseline st;
       baseline_db := baseline_db st |}.

(** Lines 99-107.  The two assignments follow the key press inside the
    [try] block, so they are skipped when the press raises. *)
Definition trigger_check (now : Q) (ok : bool) (st : State) : State * Outcome :=
  if (ONSET_FRAMES <=? speech_run st)%nat
     && Qlt_bool PRESS_COOLDOWN (now - last_press st)
  then
    if ok then
      ({| last_press := now;
          speech_run := 0;
          silence_run := silence_run st;
          have_baseline := have_baseline st;
          baseline_db := baseline_db st |}, Tapped)
    else (st, KeyboardError)
  else (st, NoTrigger).

(** The state at line 99 of a frame processed after warm-up: baseline
    updated, frame classified, run counters updated. *)
Definition at_check (st : State) (f : Frame) : State :=
  let b := ewma (baseline_db st) (db f) in
  update_runs (is_speech b f)
    {| last_press := last_press st;
       speech_run := speech_run st;
       silence_run := silence_run st;
       have_baseline := have_baseline st;
       baseline_db := b |}.

(** One pass through the loop body, lines 76-107. *)
Definition process_frame (start_ts : Q) (st : State) (f : Frame)
  : State * Log :=
  if negb (have_baseline st) then
    (warm_up start_ts st f, {| classified := None; outcome := NoTrigger |})
  else
    let speech := is_speech (ewma (baseline_db st) (db f)) f in
    let '(st', o) := trigger_check (clock f) (press_ok f) (at_check st f) in
    (st', {| classified := Some speech; outcome := o |}).

(** The loop over the frames, threading the state. *)
Fixpoint run (start_ts : Q) (st : State) (frames : list Frame)
  : State * list Log :=
  match frames with
  | [] => (st, [])
  | f :: rest =>
      let '(st1, l) := process_frame start_ts st f in
      let '(st2, ls) := run start_ts st1 rest in
      (st2, l :: ls)
  end.

Definition final (start_ts : Q) (st : State) (frames : list Frame) : State :=
  fst (run start_ts st frames).

Definition logs (start_ts : Q) (st : State) (frames : list Frame) : list Log :=
  snd (run start_ts st frames).

End Detector.

(** ** The band-pass filter (lines 28-36)

    [bandpass] calls [scipy.signal.lfilter(B, A, x)] with no [zi] argument:
    the filter runs in transposed direct form II from an all-zero delay
    line, and the final delay line is not returned.  The coefficient
    vectors [B] and [A] come from [scipy.signal.butter]; they are taken as
    parameters.  Every sum is kept in lowest terms with [Qred], which does
    not change its value. *)

Module Filter.

Section Coefficients.

Variables B A : list Q.

(** [lfilter] divides both vectors by [A[0]]. *)
Definition bn (i : nat) : Q := nth i B 0 / nth 0 A 0.
Definition an (i : nat) : Q := nth i A 0 / nth 0 A 0.

(** Length of the delay line: [max(len(A), len(B)) - 1]. *)
Definition delay_len : nat := (Nat.max (length B) (length A) - 1)%nat.

Definition zero_delay : list Q := repeat 0 delay_len.

(** One sample through the filter: the output sample and the new delay
    line. *)
Definition filter_step (z : list Q) (x : Q) : Q * list Q :=
  let y := Qred (bn 0 * x + nth 0 z 0) in
  (y, map (fun i => Qred (bn (S i) * x + nth (S i) z 0 - an (S i) * y))
          (seq 0 delay_len)).

(** A whole array through the filter from the delay line [z]: the output
    array and the delay line left behind. *)
Fixpoint lfilter_zi (z : list Q) (x : list Q) : list Q * list Q :=
  match x with
  | [] => ([], z)
  | s :: rest =>
      let '(y, z1) := filter_step z s in
      let '(ys, z2) := lfilter_zi z1 rest in
      (y :: ys, z2)
  end.

Definition lfilter (x : list Q) : list Q := fst (lfilter_zi zero_delay x).

(** Line 36. *)
Definition bandpass (x : list Q) : list Q := lfilter x.

(** The filtered frames the pipeline computes for a sequence of frames:
    [bandpass] is called once per frame (line 41). *)
Definition filtered_frames (frames : list (list Q)) : list (list Q) :=
  map bandpass frames.

(** The streaming filter the specification describes, for comparison: the
    delay line left by a frame is the one the next frame starts from. *)
Fixpoint bandpass_stream (z : list Q) (frames : list (list Q))
  : list (list Q) :=
  match frames with
  | [] => []
  | x :: rest =>
      let '(y, z1) := lfilter_zi z x in
      y :: bandpass_stream z1 rest
  end.

(** The property as the specification words it: the pipeline's filtered
    frames are those of the filter that carries its delay line. *)
Definition carries_delay_line (frames : list (list Q)) : Prop :=
  filtered_frames frames = bandpass_stream zero_delay frames.

End Coefficients.

(** A fourth-order Butterworth band-pass for 100-4000 Hz at 16 kHz, the
    design [butter_bandpass] asks for, with coefficients rounded to nine
    decimals. *)
Definition butter_B : list Q :=
  [ 43398507 # 500000000; 0; - (43398507 # 125000000); 0;
    130195521 # 250000000; 0; - (43398507 # 125000000); 0;
    43398507 # 500000000 ].

Definition butter_A : list Q :=
  [ 1; - (492474197 # 125000000); 3183578477 # 500000000;
    - (592528029 # 100000000); 40138031 # 10000000;
    - (1036926441 # 500000000); 39280463 # 62500000;
    - (11045771 # 125000000); 2231129 # 125000000 ].

End Filter.

(** ** Feature extraction (lines 38-50) *)

Module Features.

(** Line 40: [x.astype(np.float32) / 32768.0]. *)
Definition normalize (x : Z) : Q := inject_Z x / 32768.

(** [np.sign]: -1, 0 or 1. *)
Definition np_sign (x : Q) : Z := Z.sgn (Qnum x).

(** [signs[:-1] != signs[1:]], elementwise. *)
Definition sign_flips (signs : list Z) : list bool :=
  map (fun p => negb (fst p =? snd p)%Z) (combine (removelast signs) (tl signs)).

(** [np.mean] of a boolean array. *)
Definition mean_bool (l : list bool) : Q :=
  inject_Z (Z.of_nat (count_occ bool_dec l true))
  / inject_Z (Z.of_nat (length l)).

(** Lines 48-49. *)
Definition zero_crossing_rate (xf : list Q) : Q :=
  let signs := map np_sign xf in
  if (1 <? length signs)%nat then mean_bool (sign_flips signs) else 0.

(** The zero-crossing rate as the specification words it: two adjacent
    samples differ in sign when exactly one of them is negative, zero
    counting as non-negative. *)
Definition is_negative (x : Q) : bool := (Qnum x <? 0)%Z.

Fixpoint spec_sign_changes (xf : list Q) : nat :=
  match xf with
  | [] => 0%nat
  | a :: rest =>
      match rest with
      | [] => 0%nat
      | b :: _ =>
          ((if Bool.eqb (is_negative a) (is_negative b) then 0 else 1)
           + spec_sign_changes rest)%nat
      end
  end.

Definition spec_zero_crossing_rate (xf : list Q) : Q :=
  inject_Z (Z.of_nat (spec_sign_changes xf))
  / inject_Z (Z.of_nat (length xf - 1)).

(** The number of adjacent pairs whose [np.sign] values differ. *)
Fixpoint sign_changes (xf : list Q) : nat :=
  match xf with
  | [] => 0%nat
  | a :: rest =>
      match rest with
      | [] => 0%nat
      | b :: _ =>
          ((if (np_sign a =? np_sign b)%Z then 0 else 1)
           + sign_changes rest)%nat
      end
  end.

(** The property as the specification words it. *)
Definition zero_counts_as_non_negative (xf : list Q) : Prop :=
  zero_crossing_rate xf == spec_zero_crossing_rate xf
  /\ 0 <= zero_crossing_rate xf <= 1.

Section Energy.

Variables B A : list Q.

(** Lines 44-45, [20 * log10(sqrt(mean(xf * xf) + 1e-10) + 1e-12)], are
    not computable over the rationals and are a parameter. *)
Variable energy_db : list Q -> Q.

Definition frame_features (x : list Z) : Q * Q :=
  let xf := map normalize x in
  let xf := Filter.bandpass B A xf in
  (energy_db xf, zero_crossing_rate xf).

End Energy.

End Features.

(** ** Cutting a block into frames (lines 69-74) *)

Module Chunking.

(** The inner [while] loop.  [fuel] bounds the number of iterations; the
    loop itself stops when fewer than [blk] samples remain. *)
Fixpoint chunk_loop (blk fuel offset : nat) (data : list Z)
  : list (list Z) :=
  match fuel with
  | O => []
  | S fuel' =>
      if (offset + blk <=? length data)%nat
      then firstn blk (skipn offset data)
           :: chunk_loop blk fuel' (offset + blk) data
      else []
  end.

(** The frames of one block taken off the queue. *)
Definition frames_of_block (buf : list Z) : list (list Z) :=
  chunk_loop BLOCK (length buf) 0 buf.

(** The frames of a sequence of blocks: [offset] restarts at 0 for every
    block. *)
Definition frames_of_stream (blocks : list (list Z)) : list (list Z) :=
  flat_map frames_of_block blocks.

(** The chunking the specification describes, for comparison: the tail of
    a block that does not fill a frame is put in front of the next block. *)
Fixpoint frames_with_carry (tail : list Z) (blocks : list (list Z))
  : list (list Z) :=
  match blocks with
  | [] => []
  | buf :: rest =>
      let data := tail ++ buf in
      let used := (BLOCK * (length data / BLOCK))%nat in
      frames_of_block data ++ frames_with_carry (skipn used data) rest
  end.

(** The property as the specification words it. *)
Definition tail_is_carried (blocks : list (list Z)) : Prop :=
  frames_of_stream blocks = frames_with_carry [] blocks.

End Chunking.

(** ** The behaviour of the detector as the specification words it

    Each definition states one sentence of the specification about the
    detector as a property of a run, to be compared with what [run]
    does. *)

Module AsSpecified.

Import Detector.

(** Onset: from a post-warm-up state with no speech counted yet,
    [ONSET_FRAMES] frames classified as speech, none of them
    cooldown-suppressed, emit one trigger, on the last frame, and
    [speech_run] is 0 afterwards. *)
Definition onset_fires_and_resets
  (start : Q) (st : State) (frames : list Frame) : Prop :=
  have_baseline st = true ->
  speech_run st = 0%nat ->
  length frames = ONSET_FRAMES ->
  Forall (fun l => classified l = Some true) (logs start st frames) ->
  Forall (fun f => PRESS_COOLDOWN < clock f - last_press st) frames ->
  map (fun l => emitted (outcome l)) (logs start st frames)
  = repeat false (ONSET_FRAMES - 1) ++ [true]
  /\ speech_run (final start st frames) = 0%nat.

(** Cooldown: a trigger emitted after another one is more than
    [PRESS_COOLDOWN] later. *)
Definition triggers_are_spaced
  (start : Q) (st : State) (frames : list Frame) : Prop :=
  forall i j fi fj li lj,
    (i < j)%nat ->
    nth_error frames i = Some fi ->
    nth_error frames j = Some fj ->
    nth_error (logs start st frames) i = Some li ->
    nth_error (logs start st frames) j = Some lj ->
    emitted (outcome li) = true ->
    emitted (outcome lj) = true ->
    PRESS_COOLDOWN < clock fj - clock fi.

(** Sink failure: a failed key press leaves the state as a successful one
    does. *)
Definition failure_starts_cooldown
  (start : Q) (st : State) (f : Frame) : Prop :=
  outcome (snd (process_frame start st f)) = KeyboardError ->
  last_press (fst (process_frame start st f)) == clock f
  /\ speech_run (fst (process_frame start st f)) = 0%nat.

(** Debounce: a non-speech frame that follows a speech frame leaves
    [speech_run] as it was. *)
Definition dropout_keeps_speech_run
  (start : Q) (st : State) (f : Frame) : Prop :=
  have_baseline st = true ->
  silence_run st = 0%nat ->
  classified (snd (process_frame start st f)) = Some false ->
  speech_run (fst (process_frame start st f)) = speech_run st.

(** The minimum of a non-empty list of energies. *)
Definition minimum (ds : list Q) : option Q :=
  match ds with
  | [] => None
  | d :: rest => Some (fold_left py_min rest d)
  end.

(** Warm-up baseline: after a non-empty prefix of warm-up frames the
    baseline is the least energy observed. *)
Definition baseline_is_least_observed
  (start : Q) (frames : list Frame) : Prop :=
  Forall (fun l => classified l = None) (logs start initial_state frames) ->
  forall m, minimum (map db frames) = Some m ->
  baseline_db (final start initial_state frames) == m.

End AsSpecified.

(** ** Frame sequences used as examples

    Frames arrive 30 ms apart; the run starts at clock reading 1000. *)

Module Scenario.

Import Detector.

Definition start_ts : Q := 1000.

(** Clock reading taken while frame [k] is processed. *)
Definition tick (k : nat) : Q :=
  start_ts + (3 # 100) * inject_Z (Z.of_nat (S k)).

(** A frame of room noise: -50 dB. *)
Definition quiet_frame (k : nat) : Frame :=
  {| db := - (50); zcr := 1 # 20; clock := tick k; press_ok := true |}.

(** A frame of voice: -20 dB, zero-crossing rate inside [ZCR_RANGE]. *)
Definition voiced_frame (ok : bool) (k : nat) : Frame :=
  {| db := - (20); zcr := 1 # 10; clock := tick k; press_ok := ok |}.

(** Frames 0..66 of room noise: frame 66 is read at 2.01 s, so these are
    exactly the frames consumed by warm-up. *)
Definition warm_up_frames : list Frame := map quiet_frame (seq 0 67).

Definition steady_state : State := final start_ts initial_state warm_up_frames.

(** Four frames of voice; the key press raises on the fourth. *)
Definition onset_with_failing_press : list Frame :=
  map (voiced_frame true) (seq 67 3) ++ [voiced_frame false 70].

(** The same, followed by a fifth frame of voice whose key press works. *)
Definition retry_after_failing_press : list Frame :=
  onset_with_failing_press ++ [voiced_frame true 71].

(** Voice from frame 67 to frame 153, then one frame of room noise.  The
    key is tapped on frame 70 (clock 1002.13); frame 154 is read at
    1004.65, the first reading more than 2.5 s later. *)
Definition long_speech_then_dropout : list Frame :=
  map (voiced_frame true) (seq 67 87) ++ [quiet_frame 154].

(** A single warm-up frame of -30 dB. *)
Definition loud_warm_up_frame : Frame :=
  {| db := - (30); zcr := 1 # 10; clock := tick 0; press_ok := true |}.

(** A frame of 479 samples of digital silence and one sample at half
    scale. *)
Definition click_frame : list Z := repeat 0%Z 479 ++ [16384%Z].

(** A frame of digital silence. *)
Definition silent_frame : list Z := repeat 0%Z 480.

(** A block of 481 samples followed by a block of 479 samples. *)
Definition uneven_blocks : list (list Z) := [repeat 1%Z 481; repeat 2%Z 479].

End Scenario.

(** ** The consumer loop of [main] (lines 66-107), end to end

    The blocks are those [q.get()] returns, in order. Every block is cut
    into frames; every frame goes through [frame_features] and the loop
    body. The clock reading and the behaviour of the key press are taken
    from the environment, indexed by the number of frames processed so
    far. *)

Module Pipeline.

Import Detector.

Section Loop.

Variables B A : list Q.
Variable energy_db : list Q -> Q.
Variable clock_at : nat -> Q.
Variable press_ok_at : nat -> bool.

(** Line 76 and the readings of lines 81, 99 and 102 for frame number
    [k]. *)
Definition observe (k : nat) (frame : list Z) : Frame :=
  {| db := fst (Features.frame_features B A energy_db frame);
     zcr := snd (Features.frame_features B A energy_db frame);
     clock := clock_at k;
     press_ok := press_ok_at k |}.

Fixpoint observe_from (k : nat) (frames : list (list Z)) : list Frame :=
  match frames with
  | [] => []
  | frame :: rest => observe k frame :: observe_from (S k) rest
  end.

Definition main_loop (start_ts : Q) (blocks : list (list Z))
  : State * list Log :=
  run start_ts initial_state
    (observe_from 0 (Chunking.frames_of_stream blocks)).

End Loop.

(** The number of frames of a trace that were classified as speech. *)
Definition speech_count (ls : list Log) : nat :=
  length (filter (fun l => match classified l with
                           | Some true => true
                           | _ => false
                           end) ls).

End Pipeline.

(** * Properties of the detector *)

Module DetectorFacts.

Import Detector Scenario.

Lemma Qlt_bool_iff (x y : Q) : Qlt_bool x y = true <-> x < y.
Proof.
  unfold Qlt_bool. rewrite negb_true_iff.
  split; intro H.
  - apply Qnot_le_lt. intro L. apply Qle_bool_iff in L. congruence.
  - destruct (Qle_bool y x) eqn:E; [|reflexivity].
    apply Qle_bool_iff in E. exfalso. apply (Qlt_not_le _ _ H E).
Qed.

(** *** The run, frame by frame *)

Lemma run_cons start st f rest :
  run start st (f :: rest) =
  (final start (fst (process_frame start st f)) rest,
   snd (process_frame start st f)
   :: logs start (fst (process_frame start st f)) rest).
Proof.
  unfold final, logs. simpl.
  destruct (process_frame start st f) as [st1 l]. simpl.
  destruct (run start st1 rest) as [st2 ls]. reflexivity.
Qed.

Lemma final_cons start st f rest :
  final start st (f :: rest) =
  final start (fst (process_frame start st f)) rest.
Proof. unfold final at 1. rewrite run_cons. reflexivity. Qed.

Lemma logs_cons start st f rest :
  logs start st (f :: rest) =
  snd (process_frame start st f)
  :: logs start (fst (process_frame start st f)) rest.
Proof. unfold logs at 1. rewrite run_cons. reflexivity. Qed.

Lemma final_app start frames1 : forall st frames2,
  final start st (frames1 ++ frames2) =
  final start (final start st frames1) frames2.
Proof.
  induction frames1 as [|f rest IH]; intros st frames2.
  - reflexivity.
  - simpl app. rewrite !final_cons. apply IH.
Qed.

Lemma logs_app start frames1 : forall st frames2,
  logs start st (frames1 ++ frames2) =
  logs start st frames1 ++ logs start (final start st frames1) frames2.
Proof.
  induction frames1 as [|f rest IH]; intros st frames2.
  - reflexivity.
  - simpl app. rewrite !logs_cons, final_cons, IH. reflexivity.
Qed.

(** Every frame is processed: the loop produces one trace entry per
    frame, whatever the key press does. *)
Lemma logs_length start frames : forall st,
  length (logs start st frames) = length frames.
Proof.
  induction frames as [|f rest IH]; intro st.
  - reflexivity.
  - rewrite logs_cons. simpl. now rewrite IH.
Qed.

Lemma frames_split (frames : list Frame) i f :
  nth_error frames i = Some f ->
  frames = firstn i frames ++ f :: skipn (S i) frames.
Proof.
  revert i. induction frames as [|g rest IH]; intros [|i] H; simpl in *;
    try discriminate.
  - now inversion H.
  - f_equal. now apply IH.
Qed.

Lemma firstn_S_nth (frames : list Frame) i f :
  nth_error frames i = Some f ->
  firstn (S i) frames = firstn i frames ++ [f].
Proof.
  revert i. induction frames as [|g rest IH]; intros [|i] H; simpl in *;
    try discriminate.
  - now inversion H.
  - f_equal. now apply IH.
Qed.

(** The state in which frame [i] is processed is the one the first [i]
    frames leave behind. *)
Lemma logs_nth start st frames i f :
  nth_error frames i = Some f ->
  nth_error (logs start st frames) i =
  Some (snd (process_frame start (final start st (firstn i frames)) f)).
Proof.
  intro H. rewrite (frames_split frames i f H) at 1.
  rewrite logs_app, logs_cons.
  rewrite nth_error_app2; rewrite logs_length, firstn_length_le;
    try (apply Nat.lt_le_incl, nth_error_Some; congruence).
  - now rewrite Nat.sub_diag.
  - reflexivity.
Qed.

Lemma final_firstn_S start st frames i f :
  nth_error frames i = Some f ->
  final start st (firstn (S i) frames) =
  fst (process_frame start (final start st (firstn i frames)) f).
Proof.
  intro H. rewrite (firstn_S_nth frames i f H), final_app.
  now rewrite final_cons.
Qed.

(** *** One pass, case by case *)

Lemma process_warm_up start st f :
  have_baseline st = false ->
  process_frame start st f =
  (warm_up start st f, {| classified := None; outcome := NoTrigger |}).
Proof. intro H. unfold process_frame. now rewrite H. Qed.

Lemma process_steady start st f :
  have_baseline st = true ->
  process_frame start st f =
  (fst (trigger_check (clock f) (press_ok f) (at_check st f)),
   {| classified := Some (is_speech (ewma (baseline_db st) (db f)) f);
      outcome := snd (trigger_check (clock f) (press_ok f) (at_check st f)) |}).
Proof.
  intro H. unfold process_frame. rewrite H. simpl.
  now destruct (trigger_check (clock f) (press_ok f) (at_check st f)).
Qed.

Lemma at_check_have_baseline st f :
  have_baseline (at_check st f) = have_baseline st.
Proof. unfold at_check, update_runs. now destruct (is_speech _ _). Qed.

Lemma at_check_last_press st f :
  last_press (at_check st f) = last_press st.
Proof. unfold at_check, update_runs. now destruct (is_speech _ _). Qed.

Lemma trigger_check_have_baseline now ok st :
  have_baseline (fst (trigger_check now ok st)) = have_baseline st.
Proof.
  unfold trigger_check.
  destruct (_ && _); [destruct ok|]; reflexivity.
Qed.

(** What the trigger check needs in order to call the key press. *)
Lemma trigger_check_emitted now ok st :
  snd (trigger_check now ok st) <> NoTrigger ->
  (ONSET_FRAMES <= speech_run st)%nat /\ PRESS_COOLDOWN < now - last_press st.
Proof.
  unfold trigger_check.
  destruct ((ONSET_FRAMES <=? speech_run st)%nat
            && Qlt_bool PRESS_COOLDOWN (now - last_press st)) eqn:E.
  - intros _. apply andb_true_iff in E. destruct E as [E1 E2].
    split; [now apply Nat.leb_le | now apply Qlt_bool_iff].
  - simpl. congruence.
Qed.

Lemma trigger_check_fires now ok st :
  (ONSET_FRAMES <= speech_run st)%nat ->
  PRESS_COOLDOWN < now - last_press st ->
  trigger_check now ok st =
  if ok then
    ({| last_press := now; speech_run := 0;
        silence_run := silence_run st;
        have_baseline := have_baseline st;
        baseline_db := baseline_db st |}, Tapped)
  else (st, KeyboardError).
Proof.
  intros H1 H2. unfold trigger_check.
  apply Nat.leb_le in H1. apply Qlt_bool_iff in H2.
  now rewrite H1, H2.
Qed.

Lemma trigger_check_quiet now ok st :
  (speech_run st < ONSET_FRAMES)%nat ->
  trigger_check now ok st = (st, NoTrigger).
Proof.
  intro H. unfold trigger_check.
  apply Nat.leb_gt in H. now rewrite H.
Qed.

Lemma process_have_baseline start st f :
  have_baseline st = true ->
  have_baseline (fst (process_frame start st f)) = true.
Proof.
  intro H. rewrite (process_steady _ _ _ H). simpl.
  now rewrite trigger_check_have_baseline, at_check_have_baseline.
Qed.

(** *** Warm-up *)

(** The flag [have_baseline] is set only by a warm-up frame whose clock
    reading is at least [ADAPT_SECS] past the start. *)
Lemma have_baseline_origin start st frames : forall i,
  have_baseline (final start st (firstn i frames)) = true ->
  have_baseline st = true \/
  exists j fj, (j < i)%nat /\ nth_error frames j = Some fj /\
               ADAPT_SECS <= clock fj - start.
Proof.
  induction i as [|i IH]; intro H.
  - left. exact H.
  - destruct (nth_error frames i) as [f|] eqn:E.
    + rewrite (final_firstn_S _ _ _ _ _ E) in H.
      destruct (have_baseline (final start st (firstn i frames))) eqn:Hb.
      * destruct (IH eq_refl) as [L | (j & fj & Hj & Hn & Hc)];
          [now left | right].
        exists j, fj. repeat split; auto.
      * right. rewrite (process_warm_up _ _ _ Hb) in H. simpl in H.
        apply Qle_bool_iff in H. exists i, f. repeat split; auto.
    + apply nth_error_None in E.
      rewrite firstn_all2 in H by lia.
      rewrite firstn_all2 in IH by lia.
      destruct (IH H) as [L | (j & fj & Hj & Hn & Hc)]; [now left | right].
      exists j, fj. repeat split; auto.
Qed.

(** C3. In a run from the initial state no trigger is emitted on a frame
    processed while the tracker is in warm-up, whatever the features of the
    frame are: not on a frame that finds [have_baseline] false, and, when
    the clock readings never decrease, not on a frame whose reading is less
    than [ADAPT_SECS] past the start. *)
Theorem no_trigger_during_warm_up start frames i f l :
  nth_error frames i = Some f ->
  nth_error (logs start initial_state frames) i = Some l ->
  (have_baseline (final start initial_state (firstn i frames)) = false ->
   emitted (outcome l) = false)
  /\ ((forall j k fj fk, (j <= k)%nat -> nth_error frames j = Some fj ->
       nth_error frames k = Some fk -> clock fj <= clock fk) ->
      clock f - start < ADAPT_SECS ->
      emitted (outcome l) = false).
Proof.
  intros Hf Hl. rewrite (logs_nth _ _ _ _ _ Hf) in Hl.
  injection Hl as <-.
  assert (W : have_baseline (final start initial_state (firstn i frames))
              = false -> emitted (outcome (snd (process_frame start
                  (final start initial_state (firstn i frames)) f))) = false).
  { intro Hb. now rewrite (process_warm_up _ _ _ Hb). }
  split; [exact W|].
  intros Hmono Hearly. apply W.
  destruct (have_baseline (final start initial_state (firstn i frames)))
    eqn:Hb; [|reflexivity].
  destruct (have_baseline_origin _ _ _ _ Hb)
    as [L | (j & fj & Hj & Hn & Hc)]; [discriminate L|].
  assert (clock fj <= clock f)
    by (apply (Hmono j i); auto; lia).
  exfalso. unfold ADAPT_SECS in *. lra.
Qed.

Lemma no_trigger_during_warm_up_witness :
  emitted
    (outcome
       (nth 2
          (logs start_ts initial_state
             [quiet_frame 0; voiced_frame true 1; voiced_frame true 2])
          {| classified := None; outcome := Tapped |})) = false.
Proof.
  destruct (no_trigger_during_warm_up start_ts
              [quiet_frame 0; voiced_frame true 1; voiced_frame true 2]
              2 (voiced_frame true 2)
              (nth 2
                 (logs start_ts initial_state
                    [quiet_frame 0; voiced_frame true 1; voiced_frame true 2])
                 {| classified := None; outcome := Tapped |})) as [_ H].
  - reflexivity.
  - vm_compute. reflexivity.
  - apply H.
    + intros j k fj fk Hjk Hj Hk.
      destruct j as [|[|[|j]]]; destruct k as [|[|[|k]]];
        simpl in Hj, Hk; try lia;
        try (destruct j; discriminate Hj);
        try (destruct k; discriminate Hk);
        injection Hj as <-; injection Hk as <-;
        vm_compute; discriminate.
    + vm_compute. reflexivity.
Defined.

(** *** Classification and the run counters *)

Lemma classified_steady start st f b :
  classified (snd (process_frame start st f)) = Some b ->
  have_baseline st = true /\ is_speech (ewma (baseline_db st) (db f)) f = b.
Proof.
  destruct (have_baseline st) eqn:Hb; intro H.
  - rewrite (process_steady _ _ _ Hb) in H. simpl in H.
    split; congruence.
  - rewrite (process_warm_up _ _ _ Hb) in H. discriminate.
Qed.

Lemma at_check_speech st f :
  is_speech (ewma (baseline_db st) (db f)) f = true ->
  at_check st f =
  {| last_press := last_press st; speech_run := S (speech_run st);
     silence_run := 0; have_baseline := have_baseline st;
     baseline_db := ewma (baseline_db st) (db f) |}.
Proof. intro H. unfold at_check. now rewrite H. Qed.

Lemma at_check_silence st f :
  is_speech (ewma (baseline_db st) (db f)) f = false ->
  at_check st f =
  {| last_press := last_press st;
     speech_run := if (RELEASE_FRAMES <=? S (silence_run st))%nat
                   then 0%nat else speech_run st;
     silence_run := S (silence_run st);
     have_baseline := have_baseline st;
     baseline_db := ewma (baseline_db st) (db f) |}.
Proof. intro H. unfold at_check. now rewrite H. Qed.

Lemma trigger_check_silence_run now ok st :
  silence_run (fst (trigger_check now ok st)) = silence_run st.
Proof.
  unfold trigger_check.
  destruct (_ && _); [destruct ok|]; reflexivity.
Qed.

(** Speech frames that do not bring [speech_run] up to [ONSET_FRAMES] are
    counted and nothing else happens. *)
Lemma speech_below_onset start frames : forall st,
  have_baseline st = true ->
  Forall (fun l => classified l = Some true) (logs start st frames) ->
  (speech_run st + length frames < ONSET_FRAMES)%nat ->
  map outcome (logs start st frames) = repeat NoTrigger (length frames)
  /\ speech_run (final start st frames) = (speech_run st + length frames)%nat
  /\ last_press (final start st frames) = last_press st
  /\ have_baseline (final start st frames) = true.
Proof.
  induction frames as [|f rest IH]; intros st Hb Hall Hlt.
  - simpl. repeat split; auto.
  - rewrite logs_cons in Hall. inversion Hall as [|? ? Hf Hrest]; subst.
    apply classified_steady in Hf. destruct Hf as [_ Hs].
    simpl length in *.
    assert (E : process_frame start st f =
                (at_check st f,
                 {| classified := Some true; outcome := NoTrigger |})).
    { rewrite (process_steady _ _ _ Hb), Hs.
      rewrite trigger_check_quiet; [reflexivity|].
      rewrite (at_check_speech _ _ Hs). simpl. lia. }
    rewrite E in Hrest. simpl in Hrest.
    rewrite logs_cons, final_cons, E. simpl fst. simpl snd.
    destruct (IH (at_check st f)) as (I1 & I2 & I3 & I4); auto.
    + now rewrite at_check_have_baseline.
    + rewrite (at_check_speech _ _ Hs). simpl. lia.
    + rewrite map_cons, I1, I2, I3, I4, at_check_last_press.
      rewrite (at_check_speech _ _ Hs). simpl.
      repeat split; auto; lia.
Qed.

(** C1 (amended). Let the frames [frames ++ [f]] be processed after
    warm-up and all be classified as speech, let [f] be the frame on which
    [speech_run] first reaches [ONSET_FRAMES], and let the trigger on [f]
    not be cooldown-suppressed. Then exactly one trigger is emitted over
    these frames, on [f]; [speech_run] is reset to 0 on [f] when the key
    press succeeds, and keeps the value [ONSET_FRAMES] when it raises. *)
Theorem onset_fires_at_threshold start st frames f :
  Forall (fun l => classified l = Some true) (logs start st (frames ++ [f])) ->
  (speech_run st + length frames + 1 = ONSET_FRAMES)%nat ->
  PRESS_COOLDOWN < clock f - last_press st ->
  map outcome (logs start st (frames ++ [f]))
  = repeat NoTrigger (length frames)
    ++ [if press_ok f then Tapped else KeyboardError]
  /\ speech_run (final start st (frames ++ [f]))
     = if press_ok f then 0%nat else ONSET_FRAMES.
Proof.
  intros Hall Hlen Hcool.
  assert (Hb : have_baseline st = true).
  { destruct frames as [|g rest]; simpl app in Hall;
      rewrite logs_cons in Hall; inversion Hall as [|? ? Hg _]; subst;
      now apply classified_steady in Hg. }
  rewrite logs_app in Hall. apply Forall_app in Hall.
  destruct Hall as [Hpre Hlast].
  destruct (speech_below_onset start frames st Hb Hpre) as (P1 & P2 & P3 & P4);
    [lia|].
  rewrite logs_cons in Hlast. inversion Hlast as [|? ? Hf _]; subst.
  apply classified_steady in Hf. destruct Hf as [_ Hs].
  rewrite logs_app, final_app, map_app, P1, logs_cons, final_cons.
  rewrite (process_steady _ _ _ P4). simpl fst; simpl snd.
  rewrite trigger_check_fires.
  - destruct (press_ok f); simpl.
    + split; reflexivity.
    + split; [reflexivity|].
      rewrite (at_check_speech _ _ Hs). simpl. lia.
  - rewrite (at_check_speech _ _ Hs). simpl. lia.
  - now rewrite at_check_last_press, P3.
Qed.

Lemma onset_fires_at_threshold_witness :
  map outcome
    (logs start_ts steady_state
       (map (voiced_frame true) (seq 67 3) ++ [voiced_frame true 70]))
  = repeat NoTrigger 3 ++ [Tapped]
  /\ speech_run
       (final start_ts steady_state
          (map (voiced_frame true) (seq 67 3) ++ [voiced_frame true 70]))
     = 0%nat.
Proof.
  apply (onset_fires_at_threshold start_ts steady_state
           (map (voiced_frame true) (seq 67 3)) (voiced_frame true 70)).
  - vm_compute. repeat constructor.
  - reflexivity.
  - vm_compute. reflexivity.
Defined.

(** C1, counterexample. After warm-up, four frames of voice of which none
    is cooldown-suppressed: the key press raises on the fourth, and
    [speech_run] is 4 afterwards, not 0. *)
Lemma onset_without_reset :
  ~ AsSpecified.onset_fires_and_resets start_ts steady_state
      onset_with_failing_press.
Proof.
  intro H.
  destruct H as [_ H].
  - reflexivity.
  - reflexivity.
  - reflexivity.
  - vm_compute. repeat constructor.
  - unfold onset_with_failing_press. simpl.
    repeat constructor; vm_compute; reflexivity.
  - vm_compute in H. discriminate H.
Qed.

(** *** Cooldown *)

Lemma firstn_le_split (A : Type) (l : list A) : forall m n,
  (m <= n)%nat ->
  firstn n l = firstn m l ++ firstn (n - m) (skipn m l).
Proof.
  induction l as [|a l IH]; intros m n Hmn.
  - now rewrite skipn_nil, !firstn_nil.
  - destruct m as [|m].
    + now rewrite Nat.sub_0_r.
    + destruct n as [|n]; [lia|]. simpl.
      f_equal. apply IH. lia.
Qed.

Lemma tapped_sets_last_press start st f :
  outcome (snd (process_frame start st f)) = Tapped ->
  last_press (fst (process_frame start st f)) = clock f.
Proof.
  destruct (have_baseline st) eqn:Hb.
  - rewrite (process_steady _ _ _ Hb). simpl.
    unfold trigger_check.
    destruct (_ && _); [destruct (press_ok f)|]; simpl; congruence.
  - rewrite (process_warm_up _ _ _ Hb). simpl. discriminate.
Qed.

(** [last_press] never moves backwards: it changes only to a clock reading
    more than [PRESS_COOLDOWN] above it. *)
Lemma last_press_step start st f :
  last_press st <= last_press (fst (process_frame start st f)).
Proof.
  destruct (have_baseline st) eqn:Hb.
  - rewrite (process_steady _ _ _ Hb). simpl.
    unfold trigger_check.
    destruct ((ONSET_FRAMES <=? speech_run (at_check st f))%nat) eqn:E1;
      simpl; [|rewrite at_check_last_press; apply Qle_refl].
    destruct (Qlt_bool PRESS_COOLDOWN (clock f - last_press (at_check st f)))
      eqn:E2; [destruct (press_ok f)|]; simpl;
      try (rewrite at_check_last_press; apply Qle_refl).
    apply Qlt_bool_iff in E2. rewrite at_check_last_press in E2.
    unfold PRESS_COOLDOWN in E2. lra.
  - rewrite (process_warm_up _ _ _ Hb). simpl. apply Qle_refl.
Qed.

Lemma last_press_mono start frames : forall st,
  last_press st <= last_press (final start st frames).
Proof.
  induction frames as [|f rest IH]; intro st.
  - apply Qle_refl.
  - rewrite final_cons.
    eapply Qle_trans; [apply last_press_step | apply IH].
Qed.

(** What an emitted trigger tells about the state the frame found. *)
Lemma emitted_steady start st f :
  emitted (outcome (snd (process_frame start st f))) = true ->
  have_baseline st = true
  /\ (ONSET_FRAMES <= speech_run (at_check st f))%nat
  /\ PRESS_COOLDOWN < clock f - last_press st.
Proof.
  destruct (have_baseline st) eqn:Hb.
  - rewrite (process_steady _ _ _ Hb). simpl. intro H.
    destruct (trigger_check_emitted (clock f) (press_ok f) (at_check st f))
      as [H1 H2].
    + intro E. rewrite E in H. discriminate.
    + rewrite at_check_last_press in H2. auto.
  - rewrite (process_warm_up _ _ _ Hb). simpl. discriminate.
Qed.

(** C2 (amended). Once the key has been tapped on a frame read at time [t]
    (a trigger whose key press succeeded), every later frame on which a
    trigger is emitted is read more than [PRESS_COOLDOWN] after [t],
    whatever the frames in between are classified as, and on that frame
    [speech_run] is at least [ONSET_FRAMES] at the trigger check. *)
Theorem no_trigger_within_cooldown_of_tap start st frames i j fi fj li lj :
  (i < j)%nat ->
  nth_error frames i = Some fi ->
  nth_error frames j = Some fj ->
  nth_error (logs start st frames) i = Some li ->
  nth_error (logs start st frames) j = Some lj ->
  outcome li = Tapped ->
  emitted (outcome lj) = true ->
  PRESS_COOLDOWN < clock fj - clock fi
  /\ (ONSET_FRAMES
      <= speech_run (at_check (final start st (firstn j frames)) fj))%nat.
Proof.
  intros Hij Hfi Hfj Hli Hlj Htap Hemit.
  rewrite (logs_nth _ _ _ _ _ Hfi) in Hli. injection Hli as <-.
  rewrite (logs_nth _ _ _ _ _ Hfj) in Hlj. injection Hlj as <-.
  apply tapped_sets_last_press in Htap.
  rewrite <- (final_firstn_S _ _ _ _ _ Hfi) in Htap.
  apply emitted_steady in Hemit. destruct Hemit as (_ & Hrun & Hcool).
  split; [|exact Hrun].
  rewrite (firstn_le_split _ frames (S i) j) in Hcool by lia.
  rewrite final_app in Hcool.
  pose proof (last_press_mono start
                (firstn (j - S i) (skipn (S i) frames))
                (final start st (firstn (S i) frames))) as Hmono.
  rewrite Htap in Hmono. lra.
Qed.

Lemma no_trigger_within_cooldown_of_tap_witness :
  PRESS_COOLDOWN < tick 154 - tick 70
  /\ (ONSET_FRAMES
      <= speech_run
           (at_check
              (final start_ts steady_state
                 (firstn 87 long_speech_then_dropout))
              (quiet_frame 154)))%nat.
Proof.
  apply (no_trigger_within_cooldown_of_tap start_ts steady_state
           long_speech_then_dropout 3 87
           (voiced_frame true 70) (quiet_frame 154)
           {| classified := Some true; outcome := Tapped |}
           {| classified := Some false; outcome := Tapped |}).
  - lia.
  - reflexivity.
  - reflexivity.
  - vm_compute. reflexivity.
  - vm_compute. reflexivity.
  - reflexivity.
  - reflexivity.
Defined.

(** C2, counterexample. The key press raises on the frame read at
    1002.13; a trigger is emitted again on the next frame, read 0.03 s
    later. *)
Lemma retrigger_after_failed_press :
  ~ AsSpecified.triggers_are_spaced start_ts steady_state
      retry_after_failing_press.
Proof.
  intro H.
  specialize (H 3%nat 4%nat (voiced_frame false 70) (voiced_frame true 71)
                {| classified := Some true; outcome := KeyboardError |}
                {| classified := Some true; outcome := Tapped |}).
  assert (C : PRESS_COOLDOWN < clock (voiced_frame true 71)
                               - clock (voiced_frame false 70)).
  { apply H; try reflexivity; [lia | vm_compute; reflexivity ..]. }
  vm_compute in C. discriminate C.
Qed.

(** *** Failure of the key press *)

(** C4 (amended). When the key press raises on a trigger, detection
    continues with the next frame and the state is the one the trigger
    check found: [last_press] is not updated and [speech_run] is not
    reset, so no cooldown starts and the trigger condition of the frame
    still holds of the state that is left. *)
Theorem failed_press_changes_nothing start st f :
  outcome (snd (process_frame start st f)) = KeyboardError ->
  fst (process_frame start st f) = at_check st f
  /\ last_press (fst (process_frame start st f)) = last_press st
  /\ (ONSET_FRAMES <= speech_run (fst (process_frame start st f)))%nat
  /\ PRESS_COOLDOWN
     < clock f - last_press (fst (process_frame start st f))
  /\ forall rest,
       logs start st (f :: rest)
       = snd (process_frame start st f) :: logs start (at_check st f) rest
       /\ length (logs start st (f :: rest)) = S (length rest).
Proof.
  intro H.
  assert (Hem : emitted (outcome (snd (process_frame start st f))) = true)
    by now rewrite H.
  apply emitted_steady in Hem. destruct Hem as (Hb & Hrun & Hcool).
  assert (E : fst (process_frame start st f) = at_check st f).
  { rewrite (process_steady _ _ _ Hb) in *. simpl in *.
    unfold trigger_check in *.
    destruct (_ && _); [destruct (press_ok f)|]; simpl in *;
      congruence. }
  rewrite E, at_check_last_press. repeat split; auto.
  - now rewrite logs_cons, E.
  - now rewrite logs_length.
Qed.

Lemma failed_press_changes_nothing_witness :
  let st := final start_ts steady_state (map (voiced_frame true) (seq 67 3)) in
  let f := voiced_frame false 70 in
  fst (process_frame start_ts st f) = at_check st f
  /\ last_press (fst (process_frame start_ts st f)) = last_press st
  /\ (ONSET_FRAMES <= speech_run (fst (process_frame start_ts st f)))%nat
  /\ PRESS_COOLDOWN
     < clock f - last_press (fst (process_frame start_ts st f))
  /\ forall rest,
       logs start_ts st (f :: rest)
       = snd (process_frame start_ts st f)
         :: logs start_ts (at_check st f) rest
       /\ length (logs start_ts st (f :: rest)) = S (length rest).
Proof.
  intros st f.
  apply (failed_press_changes_nothing start_ts st f).
  vm_compute. reflexivity.
Defined.

(** C4, counterexample. The key press raises on the fourth frame of
    voice: [last_press] keeps its initial value 0 instead of the clock
    reading 1002.13, and [speech_run] is 4. *)
Lemma failed_press_starts_no_cooldown :
  ~ AsSpecified.failure_starts_cooldown start_ts
      (final start_ts steady_state (map (voiced_frame true) (seq 67 3)))
      (voiced_frame false 70).
Proof.
  intro H. destruct H as [_ H].
  - vm_compute. reflexivity.
  - vm_compute in H. discriminate H.
Qed.

(** *** Debounce *)

(** Non-speech frames are counted by [silence_run], trigger or not. *)
Lemma silence_counted start frames : forall st,
  have_baseline st = true ->
  Forall (fun l => classified l = Some false) (logs start st frames) ->
  silence_run (final start st frames) = (silence_run st + length frames)%nat
  /\ have_baseline (final start st frames) = true.
Proof.
  induction frames as [|f rest IH]; intros st Hb Hall.
  - unfold final. simpl. split; [lia | exact Hb].
  - rewrite logs_cons in Hall. inversion Hall as [|? ? Hf Hrest]; subst.
    apply classified_steady in Hf. destruct Hf as [_ Hs].
    rewrite final_cons.
    destruct (IH (fst (process_frame start st f))) as [I1 I2]; auto.
    + now apply process_have_baseline.
    + rewrite I1, I2. split; [|reflexivity].
      rewrite (process_steady _ _ _ Hb). simpl fst.
      rewrite trigger_check_silence_run, (at_check_silence _ _ Hs).
      simpl. lia.
Qed.

(** C5 (amended). After warm-up, a non-speech frame that follows a speech
    frame leaves [speech_run] unchanged unless the key is tapped on that
    very frame, in which case [speech_run] is 0; the update of the run
    counters itself never changes it there. [RELEASE_FRAMES] consecutive
    non-speech frames leave [speech_run] at 0. *)
Theorem dropout_debounce start st f silent :
  have_baseline st = true ->
  (silence_run st = 0%nat ->
   classified (snd (process_frame start st f)) = Some false ->
   speech_run (at_check st f) = speech_run st
   /\ speech_run (fst (process_frame start st f))
      = match outcome (snd (process_frame start st f)) with
        | Tapped => 0%nat
        | _ => speech_run st
        end)
  /\ (length silent = RELEASE_FRAMES ->
      Forall (fun l => classified l = Some false) (logs start st silent) ->
      speech_run (final start st silent) = 0%nat).
Proof.
  intro Hb. split.
  - intros Hsil Hf. apply classified_steady in Hf. destruct Hf as [_ Hs].
    assert (E : speech_run (at_check st f) = speech_run st)
      by (rewrite (at_check_silence _ _ Hs), Hsil; reflexivity).
    split; [exact E|].
    rewrite (process_steady _ _ _ Hb). simpl.
    unfold trigger_check.
    destruct (_ && _); [destruct (press_ok f)|]; simpl; auto.
  - intros Hlen Hall.
    destruct (exists_last (l := silent)) as (pre & g & ->).
    { intro E. rewrite E in Hlen. discriminate. }
    rewrite length_app in Hlen. simpl in Hlen.
    rewrite logs_app in Hall. apply Forall_app in Hall.
    destruct Hall as [Hpre Hlast].
    destruct (silence_counted start pre st Hb Hpre) as [S1 S2].
    rewrite logs_cons in Hlast. inversion Hlast as [|? ? Hg _]; subst.
    apply classified_steady in Hg. destruct Hg as [_ Hs].
    rewrite final_app, final_cons.
    rewrite (process_steady _ _ _ S2). simpl fst.
    assert (Z : speech_run (at_check (final start st pre) g) = 0%nat).
    { rewrite (at_check_silence _ _ Hs). cbn [speech_run].
      replace (RELEASE_FRAMES <=? S (silence_run (final start st pre)))%nat
        with true; [reflexivity|].
      symmetry. apply Nat.leb_le. unfold RELEASE_FRAMES in *. lia. }
    rewrite trigger_check_quiet; [exact Z|].
    rewrite Z. unfold ONSET_FRAMES. lia.
Qed.

Lemma dropout_debounce_witness :
  let st := final start_ts steady_state (map (voiced_frame true) (seq 67 2)) in
  (speech_run (at_check st (quiet_frame 69)) = speech_run st
   /\ speech_run (fst (process_frame start_ts st (quiet_frame 69)))
      = match outcome (snd (process_frame start_ts st (quiet_frame 69))) with
        | Tapped => 0%nat
        | _ => speech_run st
        end)
  /\ speech_run (final start_ts st (map quiet_frame (seq 69 8))) = 0%nat.
Proof.
  intro st.
  destruct (dropout_debounce start_ts st (quiet_frame 69)
              (map quiet_frame (seq 69 8))) as [H1 H2].
  - vm_compute. reflexivity.
  - split.
    + apply H1; vm_compute; reflexivity.
    + apply H2; [reflexivity | vm_compute; repeat constructor].
Defined.

(** C5, counterexample. Voice from frame 67 to frame 153 with the key
    tapped on frame 70; frame 154 is room noise and follows a speech
    frame, it finds [speech_run] at 83 and leaves it at 0, because the
    cooldown has run out and the key is tapped on it. *)
Lemma dropout_resets_speech_run :
  ~ AsSpecified.dropout_keeps_speech_run start_ts
      (final start_ts steady_state (map (voiced_frame true) (seq 67 87)))
      (quiet_frame 154).
Proof.
  intro H.
  assert (C : speech_run
                (fst (process_frame start_ts
                        (final start_ts steady_state
                           (map (voiced_frame true) (seq 67 87)))
                        (quiet_frame 154)))
              = speech_run
                  (final start_ts steady_state
                     (map (voiced_frame true) (seq 67 87)))).
  { apply H; vm_compute; reflexivity. }
  vm_compute in C. discriminate C.
Qed.

(** C10. A trigger can be emitted on a frame classified as non-speech:
    after 67 warm-up frames, 87 frames all classified as speech (the key
    is tapped on the fourth) and then one frame classified as non-speech,
    read just after the cooldown has run out, the key is tapped on that
    last frame. *)
Theorem trigger_on_non_speech_frame :
  exists (start : Q) (warm speech : list Frame) (f : Frame),
    Forall (fun l => classified l = None) (logs start initial_state warm)
    /\ Forall (fun l => classified l = Some true)
         (logs start (final start initial_state warm) speech)
    /\ logs start (final start initial_state (warm ++ speech)) [f]
       = [{| classified := Some false; outcome := Tapped |}].
Proof.
  exists start_ts, warm_up_frames, (map (voiced_frame true) (seq 67 87)),
         (quiet_frame 154).
  split; [|split].
  - vm_compute. repeat constructor.
  - vm_compute. repeat constructor.
  - vm_compute. reflexivity.
Qed.

(** *** The baseline during warm-up *)

Lemma py_min_le_l a b : py_min a b <= a.
Proof.
  unfold py_min. destruct (Qlt_bool b a) eqn:E.
  - apply Qlt_bool_iff in E. now apply Qlt_le_weak.
  - apply Qle_refl.
Qed.

Lemma py_min_le_r a b : py_min a b <= b.
Proof.
  unfold py_min, Qlt_bool. destruct (Qle_bool a b) eqn:E; simpl.
  - now apply Qle_bool_iff.
  - apply Qle_refl.
Qed.

Lemma py_min_cases a b : py_min a b = a \/ py_min a b = b.
Proof. unfold py_min. destruct (Qlt_bool b a); auto. Qed.

Lemma fold_min_le_init ds : forall d, fold_left py_min ds d <= d.
Proof.
  induction ds as [|x ds IH]; intro d; simpl.
  - apply Qle_refl.
  - eapply Qle_trans; [apply IH | apply py_min_le_l].
Qed.

Lemma fold_min_le_elem ds : forall d x,
  In x ds -> fold_left py_min ds d <= x.
Proof.
  induction ds as [|y ds IH]; intros d x Hin; simpl in *.
  - contradiction.
  - destruct Hin as [-> | Hin].
    + eapply Qle_trans; [apply fold_min_le_init | apply py_min_le_r].
    + now apply IH.
Qed.

Lemma fold_min_in ds : forall d,
  fold_left py_min ds d = d \/ In (fold_left py_min ds d) ds.
Proof.
  induction ds as [|y ds IH]; intro d; simpl.
  - now left.
  - destruct (IH (py_min d y)) as [E | Hin]; [|now right; right].
    rewrite E. destruct (py_min_cases d y) as [-> | ->]; auto.
Qed.

Lemma warm_up_baseline_fold start frames : forall st,
  Forall (fun l => classified l = None) (logs start st frames) ->
  baseline_db (final start st frames)
  = fold_left py_min (map db frames) (baseline_db st).
Proof.
  induction frames as [|f rest IH]; intros st Hall.
  - reflexivity.
  - rewrite logs_cons in Hall. inversion Hall as [|? ? Hf Hrest]; subst.
    destruct (have_baseline st) eqn:Hb.
    + rewrite (process_steady _ _ _ Hb) in Hf. discriminate.
    + rewrite final_cons, IH by exact Hrest.
      now rewrite (process_warm_up _ _ _ Hb).
Qed.

(** C8 (amended). After any prefix of frames all consumed by warm-up, the
    baseline is the minimum of the initial value -60 and the energies
    observed so far: it is at most -60, at most every observed energy,
    and it is -60 or one of the observed energies. *)
Theorem warm_up_baseline_is_min start frames :
  Forall (fun l => classified l = None) (logs start initial_state frames) ->
  baseline_db (final start initial_state frames)
  = fold_left py_min (map db frames) (- (60))
  /\ baseline_db (final start initial_state frames) <= - (60)
  /\ (forall d, In d (map db frames) ->
      baseline_db (final start initial_state frames) <= d)
  /\ (baseline_db (final start initial_state frames) = - (60)
      \/ In (baseline_db (final start initial_state frames))
            (map db frames)).
Proof.
  intro Hall.
  rewrite (warm_up_baseline_fold start frames initial_state Hall).
  simpl baseline_db. repeat split.
  - apply fold_min_le_init.
  - intros d Hd. now apply fold_min_le_elem.
  - apply fold_min_in.
Qed.

Lemma warm_up_baseline_is_min_witness :
  baseline_db (final start_ts initial_state warm_up_frames)
  = fold_left py_min (map db warm_up_frames) (- (60))
  /\ baseline_db (final start_ts initial_state warm_up_frames) <= - (60)
  /\ (forall d, In d (map db warm_up_frames) ->
      baseline_db (final start_ts initial_state warm_up_frames) <= d)
  /\ (baseline_db (final start_ts initial_state warm_up_frames) = - (60)
      \/ In (baseline_db (final start_ts initial_state warm_up_frames))
            (map db warm_up_frames)).
Proof.
  apply (warm_up_baseline_is_min start_ts warm_up_frames).
  vm_compute. repeat constructor.
Defined.

(** C8, counterexample. One warm-up frame of -30 dB: the least energy
    observed is -30, the baseline is -60. *)
Lemma baseline_below_every_observation :
  ~ AsSpecified.baseline_is_least_observed start_ts [loud_warm_up_frame].
Proof.
  intro H.
  assert (C : baseline_db (final start_ts initial_state [loud_warm_up_frame])
              == - (30)).
  { apply H; [vm_compute; repeat constructor | reflexivity]. }
  vm_compute in C. discriminate C.
Qed.

End DetectorFacts.

(** * Properties of the filter and of the features *)

Module SignalFacts.

Import Filter Features Scenario.

(** *** The band-pass filter *)

Section Coefficients.

Variables B A : list Q.

Lemma filtered_frames_app (frames1 frames2 : list (list Q)) :
  filtered_frames B A (frames1 ++ frames2)
  = filtered_frames B A frames1 ++ filtered_frames B A frames2.
Proof. apply map_app. Qed.

Lemma filtered_frames_length (frames : list (list Q)) :
  length (filtered_frames B A frames) = length frames.
Proof. apply length_map. Qed.

Lemma filtered_after_history (history : list (list Q)) (x : list Q) :
  nth (length history) (filtered_frames B A (history ++ [x])) []
  = bandpass B A x.
Proof.
  rewrite filtered_frames_app, app_nth2; rewrite filtered_frames_length;
    [|lia].
  now rewrite Nat.sub_diag.
Qed.

Lemma lfilter_zi_cons (z : list Q) (s : Q) (rest : list Q) :
  lfilter_zi B A z (s :: rest)
  = (fst (filter_step B A z s)
       :: fst (lfilter_zi B A (snd (filter_step B A z s)) rest),
     snd (lfilter_zi B A (snd (filter_step B A z s)) rest)).
Proof.
  cbn [lfilter_zi].
  destruct (filter_step B A z s) as [y z1]. cbn [fst snd].
  now destruct (lfilter_zi B A z1 rest).
Qed.

(** The streaming filter is the filter run over the whole signal. *)
Lemma lfilter_zi_app (x1 : list Q) : forall z x2,
  lfilter_zi B A z (x1 ++ x2)
  = (fst (lfilter_zi B A z x1)
       ++ fst (lfilter_zi B A (snd (lfilter_zi B A z x1)) x2),
     snd (lfilter_zi B A (snd (lfilter_zi B A z x1)) x2)).
Proof.
  induction x1 as [|s rest IH]; intros z x2.
  - cbn [app lfilter_zi fst snd]. now destruct (lfilter_zi B A z x2).
  - rewrite <- app_comm_cons, !lfilter_zi_cons, IH. reflexivity.
Qed.

Lemma bandpass_stream_cons (z x : list Q) (rest : list (list Q)) :
  bandpass_stream B A z (x :: rest)
  = fst (lfilter_zi B A z x)
    :: bandpass_stream B A (snd (lfilter_zi B A z x)) rest.
Proof.
  cbn [bandpass_stream]. now destruct (lfilter_zi B A z x).
Qed.

Lemma bandpass_stream_concat (frames : list (list Q)) : forall z,
  concat (bandpass_stream B A z frames)
  = fst (lfilter_zi B A z (concat frames)).
Proof.
  induction frames as [|x rest IH]; intro z.
  - reflexivity.
  - rewrite bandpass_stream_cons. cbn [concat].
    now rewrite lfilter_zi_app, IH.
Qed.

(** C6 (amended). The band-pass filter keeps no memory between frames:
    every frame is filtered from an all-zero delay line, so the filtered
    output of a frame is a function of the samples of that frame alone and
    is the same after any two histories of frames; the pipeline's filtered
    frames are those of the streaming filter restarted on every frame. *)
Theorem bandpass_restarts_on_every_frame
  (history1 history2 frames : list (list Q)) (x : list Q) :
  nth (length history1) (filtered_frames B A (history1 ++ [x])) []
  = nth (length history2) (filtered_frames B A (history2 ++ [x])) []
  /\ nth (length history1) (filtered_frames B A (history1 ++ [x])) []
     = fst (lfilter_zi B A (zero_delay B A) x)
  /\ filtered_frames B A frames
     = flat_map (fun y => bandpass_stream B A (zero_delay B A) [y]) frames.
Proof.
  rewrite !filtered_after_history. repeat split.
  induction frames as [|y rest IH]; [reflexivity|].
  cbn [flat_map]. rewrite <- IH, bandpass_stream_cons. reflexivity.
Qed.

End Coefficients.

(** C6, counterexample. A frame whose last sample is a click, then a frame
    of digital silence. The pipeline's filtered second frame starts with
    0; a filter that carried its delay line would still be ringing from
    the click. *)
Lemma second_frame_forgets_click :
  ~ carries_delay_line butter_B butter_A
      [map normalize click_frame; map normalize silent_frame].
Proof.
  unfold carries_delay_line. intro H.
  apply (f_equal (fun l => hd 0 (nth 1 l []))) in H.
  lazy in H. discriminate H.
Qed.

(** *** The zero-crossing rate *)

Lemma sign_flips_cons2 (a b : Z) (rest : list Z) :
  sign_flips (a :: b :: rest)
  = negb (a =? b)%Z :: sign_flips (b :: rest).
Proof. reflexivity. Qed.

Lemma sign_flips_count (xf : list Q) :
  count_occ bool_dec (sign_flips (map np_sign xf)) true = sign_changes xf.
Proof.
  induction xf as [|a rest IH]; [reflexivity|].
  destruct rest as [|b rest]; [reflexivity|].
  change (map np_sign (a :: b :: rest))
    with (np_sign a :: np_sign b :: map np_sign rest).
  rewrite sign_flips_cons2.
  change (np_sign b :: map np_sign rest) with (map np_sign (b :: rest)).
  change (sign_changes (a :: b :: rest))
    with ((if (np_sign a =? np_sign b)%Z then 0 else 1)
          + sign_changes (b :: rest))%nat.
  rewrite <- IH.
  destruct (np_sign a =? np_sign b)%Z; simpl negb.
  - now rewrite count_occ_cons_neq by discriminate.
  - now rewrite count_occ_cons_eq by reflexivity.
Qed.

Lemma sign_flips_length (signs : list Z) :
  length (sign_flips signs) = (length signs - 1)%nat.
Proof.
  induction signs as [|a rest IH]; [reflexivity|].
  destruct rest as [|b rest]; [reflexivity|].
  rewrite sign_flips_cons2. simpl length in *. rewrite IH. lia.
Qed.

Lemma sign_changes_bound (xf : list Q) :
  (sign_changes xf <= length xf - 1)%nat.
Proof.
  rewrite <- sign_flips_count, <- (length_map np_sign), <- sign_flips_length.
  apply count_occ_bound.
Qed.

(** C9 (amended). The zero-crossing rate of a filtered frame is the
    fraction of adjacent sample pairs whose [np.sign] values differ, the
    sign being -1, 0 or 1: a zero sample next to a non-zero one counts as a
    crossing. It is 0 for a frame of fewer than two samples, and it always
    lies in [0, 1]. *)
Theorem zero_crossing_rate_counts_sign_changes (xf : list Q) :
  zero_crossing_rate xf
  = (if (1 <? length xf)%nat
     then inject_Z (Z.of_nat (sign_changes xf))
          / inject_Z (Z.of_nat (length xf - 1))
     else 0)
  /\ 0 <= zero_crossing_rate xf <= 1.
Proof.
  assert (E : zero_crossing_rate xf
              = if (1 <? length xf)%nat
                then inject_Z (Z.of_nat (sign_changes xf))
                     / inject_Z (Z.of_nat (length xf - 1))
                else 0).
  { unfold zero_crossing_rate, mean_bool.
    now rewrite sign_flips_count, sign_flips_length, length_map. }
  split; [exact E|]. rewrite E.
  destruct (1 <? length xf)%nat eqn:L; [|split; discriminate].
  apply Nat.ltb_lt in L.
  pose proof (sign_changes_bound xf) as Hb.
  assert (P : 0 < inject_Z (Z.of_nat (length xf - 1))).
  { change 0 with (inject_Z 0). rewrite <- Zlt_Qlt. lia. }
  split.
  - apply Qle_shift_div_l; [exact P|]. rewrite Qmult_0_l.
    change 0 with (inject_Z 0). rewrite <- Zle_Qle. lia.
  - apply Qle_shift_div_r; [exact P|]. rewrite Qmult_1_l.
    rewrite <- Zle_Qle. lia.
Qed.

(** C9, counterexample. The filtered click frame is 479 zeros followed by
    a positive sample: its zero-crossing rate is 1/479, but no pair has a
    negative sample. *)
Lemma zero_next_to_positive_is_a_crossing :
  ~ zero_counts_as_non_negative
      (bandpass butter_B butter_A (map normalize click_frame)).
Proof.
  intros [H _]. vm_compute in H. discriminate H.
Qed.

End SignalFacts.

(** * Properties of the chunking *)

Module ChunkingFacts.

Import Chunking Scenario.

Lemma chunk_loop_frame_length blk data fuel : forall offset,
  Forall (fun fr => length fr = blk) (chunk_loop blk fuel offset data).
Proof.
  induction fuel as [|fuel IH]; intro offset; simpl.
  - constructor.
  - destruct (offset + blk <=? length data)%nat eqn:E; [|constructor].
    apply Nat.leb_le in E. constructor; [|apply IH].
    rewrite firstn_length_le; [reflexivity|].
    rewrite length_skipn. lia.
Qed.

Lemma firstn_add (A : Type) (l : list A) (m n : nat) :
  firstn (m + n) l = firstn m l ++ firstn n (skipn m l).
Proof.
  revert l. induction m as [|m IH]; intro l; [reflexivity|].
  destruct l as [|a l]; simpl.
  - now rewrite firstn_nil.
  - f_equal. apply IH.
Qed.

Lemma skipn_add (A : Type) (l : list A) (m n : nat) :
  skipn (m + n) l = skipn n (skipn m l).
Proof.
  revert l. induction m as [|m IH]; intro l; [reflexivity|].
  destruct l as [|a l]; simpl.
  - now rewrite skipn_nil.
  - apply IH.
Qed.

(** The frames are consecutive windows: together they are the samples
    from [offset] on, up to a whole number of frames. *)
Lemma chunk_loop_concat blk data fuel : forall offset,
  concat (chunk_loop blk fuel offset data)
  = firstn (blk * length (chunk_loop blk fuel offset data))
      (skipn offset data).
Proof.
  induction fuel as [|fuel IH]; intro offset; simpl.
  - now rewrite Nat.mul_0_r.
  - destruct (offset + blk <=? length data)%nat eqn:E; simpl.
    + rewrite IH.
      set (n := length (chunk_loop blk fuel (offset + blk) data)).
      replace (blk * S n)%nat with (blk + blk * n)%nat by lia.
      now rewrite firstn_add, skipn_add.
    + now rewrite Nat.mul_0_r.
Qed.

(** The loop stops by its own condition: with at least as much fuel as
    there are samples left, the number of frames is the number of whole
    frames that fit. *)
Lemma chunk_loop_count blk data fuel : forall offset,
  (0 < blk)%nat ->
  (length data - offset <= fuel)%nat ->
  length (chunk_loop blk fuel offset data)
  = ((length data - offset) / blk)%nat.
Proof.
  induction fuel as [|fuel IH]; intros offset Hblk Hfuel; simpl.
  - replace (length data - offset)%nat with 0%nat by lia.
    now rewrite Nat.Div0.div_0_l.
  - destruct (offset + blk <=? length data)%nat eqn:E; simpl.
    + apply Nat.leb_le in E. rewrite IH by lia.
      replace (length data - offset)%nat
        with (length data - (offset + blk) + 1 * blk)%nat by lia.
      rewrite Nat.div_add by lia. lia.
    + apply Nat.leb_gt in E. rewrite Nat.div_small by lia. reflexivity.
Qed.

Lemma BLOCK_pos : (0 < BLOCK)%nat.
Proof. rewrite (eq_refl : BLOCK = 480%nat). lia. Qed.

Lemma frames_of_block_count (buf : list Z) :
  length (frames_of_block buf) = (length buf / BLOCK)%nat.
Proof.
  unfold frames_of_block.
  rewrite chunk_loop_count; [now rewrite Nat.sub_0_r | apply BLOCK_pos | lia].
Qed.

Lemma frames_of_block_concat (buf : list Z) :
  concat (frames_of_block buf)
  = firstn (BLOCK * (length buf / BLOCK)) buf.
Proof.
  rewrite <- frames_of_block_count. unfold frames_of_block.
  now rewrite chunk_loop_concat.
Qed.

(** C7 (amended). The tail of a block that does not fill a frame is
    discarded: every block is cut on its own into [len / BLOCK] frames of
    exactly [BLOCK] samples, which are the first [BLOCK * (len / BLOCK)]
    samples of the block in order; the remaining samples of the block
    appear in no frame and are not put in front of the next block. *)
Theorem partial_tail_is_discarded (blocks : list (list Z)) :
  Forall (fun fr => length fr = BLOCK) (frames_of_stream blocks)
  /\ concat (frames_of_stream blocks)
     = flat_map (fun buf => firstn (BLOCK * (length buf / BLOCK)) buf) blocks
  /\ length (frames_of_stream blocks)
     = list_sum (map (fun buf => length buf / BLOCK)%nat blocks).
Proof.
  unfold frames_of_stream.
  induction blocks as [|buf rest (IH1 & IH2 & IH3)].
  - split; [constructor | split; reflexivity].
  - cbn [flat_map map list_sum fold_right].
    split; [|split].
    + apply Forall_app. split; [apply chunk_loop_frame_length | exact IH1].
    + rewrite concat_app, IH2. f_equal. apply frames_of_block_concat.
    + rewrite length_app, IH3. f_equal. apply frames_of_block_count.
Qed.

(** C7, counterexample. A block of 481 samples and a block of 479
    samples hold 960 samples; the script processes one frame, carrying
    the tail over would give two. *)
Lemma tail_of_uneven_block_is_lost :
  ~ tail_is_carried uneven_blocks.
Proof.
  unfold tail_is_carried. intro H.
  apply (f_equal (@length (list Z))) in H.
  vm_compute in H. discriminate H.
Qed.

End ChunkingFacts.

(** * Further properties of the detector *)

Module DetectorInvariants.

Import Detector Scenario Pipeline DetectorFacts.

(** *** What the pieces of a pass leave alone *)

Lemma trigger_check_baseline now ok st :
  baseline_db (fst (trigger_check now ok st)) = baseline_db st.
Proof.
  unfold trigger_check.
  destruct (_ && _); [destruct ok|]; reflexivity.
Qed.

Lemma at_check_baseline st f :
  baseline_db (at_check st f) = ewma (baseline_db st) (db f).
Proof. unfold at_check, update_runs. now destruct (is_speech _ _). Qed.

Lemma steady_baseline start st f :
  have_baseline st = true ->
  baseline_db (fst (process_frame start st f))
  = ewma (baseline_db st) (db f).
Proof.
  intro Hb. rewrite (process_steady _ _ _ Hb). cbn [fst].
  now rewrite trigger_check_baseline, at_check_baseline.
Qed.

Lemma trigger_check_speech_run now ok st :
  speech_run (fst (trigger_check now ok st)) = speech_run st
  \/ speech_run (fst (trigger_check now ok st)) = 0%nat.
Proof.
  unfold trigger_check.
  destruct (_ && _); [destruct ok|]; simpl; auto.
Qed.

Lemma at_check_speech_run st f :
  speech_run (at_check st f)
  = if is_speech (ewma (baseline_db st) (db f)) f
    then S (speech_run st)
    else if (RELEASE_FRAMES <=? S (silence_run st))%nat
         then 0%nat else speech_run st.
Proof. unfold at_check, update_runs. now destruct (is_speech _ _). Qed.

Lemma at_check_silence_run st f :
  silence_run (at_check st f)
  = if is_speech (ewma (baseline_db st) (db f)) f
    then 0%nat else S (silence_run st).
Proof. unfold at_check, update_runs. now destruct (is_speech _ _). Qed.

(** *** The end of warm-up *)

(** X1. Warm-up is over after a run exactly when some frame of the run was
    read at least [ADAPT_SECS] after the start; the flag is set by that
    frame and never cleared again, whatever the later clock readings
    are. *)
Theorem warm_up_over_iff_late_frame start frames :
  have_baseline (final start initial_state frames)
  = existsb (fun f => Qle_bool ADAPT_SECS (clock f - start)) frames.
Proof.
  change (existsb (fun f => Qle_bool ADAPT_SECS (clock f - start)) frames)
    with (have_baseline initial_state
          || existsb (fun f => Qle_bool ADAPT_SECS (clock f - start)) frames).
  generalize initial_state as st. induction frames as [|f rest IH]; intro st.
  - unfold final. simpl. now rewrite orb_false_r.
  - rewrite final_cons, IH. cbn [existsb].
    destruct (have_baseline st) eqn:Hb.
    + now rewrite process_have_baseline.
    + now rewrite (process_warm_up _ _ _ Hb).
Qed.

(** X2. Frames consumed by warm-up are not counted: they change neither
    [speech_run] nor [silence_run] nor [last_press], however loud they
    are. *)
Theorem warm_up_counts_nothing start frames : forall st,
  Forall (fun l => classified l = None) (logs start st frames) ->
  speech_run (final start st frames) = speech_run st
  /\ silence_run (final start st frames) = silence_run st
  /\ last_press (final start st frames) = last_press st.
Proof.
  induction frames as [|f rest IH]; intros st Hall.
  - repeat split.
  - rewrite logs_cons in Hall. inversion Hall as [|? ? Hf Hrest]; subst.
    destruct (have_baseline st) eqn:Hb.
    + rewrite (process_steady _ _ _ Hb) in Hf. discriminate.
    + rewrite final_cons.
      destruct (IH _ Hrest) as (I1 & I2 & I3).
      rewrite I1, I2, I3, (process_warm_up _ _ _ Hb). repeat split.
Qed.

Lemma warm_up_counts_nothing_witness :
  speech_run (final start_ts initial_state warm_up_frames) = 0%nat
  /\ silence_run (final start_ts initial_state warm_up_frames) = 0%nat
  /\ last_press (final start_ts initial_state warm_up_frames) = 0.
Proof.
  apply (warm_up_counts_nothing start_ts warm_up_frames initial_state).
  vm_compute. repeat constructor.
Defined.

(** *** Runs without speech *)

Lemma quiet_run start frames : forall st,
  (speech_run st < ONSET_FRAMES)%nat ->
  Forall (fun l => classified l <> Some true) (logs start st frames) ->
  Forall (fun l => emitted (outcome l) = false) (logs start st frames)
  /\ (speech_run (final start st frames) <= speech_run st)%nat.
Proof.
  induction frames as [|f rest IH]; intros st Hlt Hall.
  - split; [constructor | apply Nat.le_refl].
  - rewrite logs_cons in Hall. inversion Hall as [|? ? Hf Hrest]; subst.
    rewrite logs_cons, final_cons.
    destruct (have_baseline st) eqn:Hb.
    + rewrite (process_steady _ _ _ Hb) in *. cbn [fst snd classified] in *.
      assert (Hs : is_speech (ewma (baseline_db st) (db f)) f = false)
        by (destruct (is_speech _ _); congruence).
      assert (Hle : (speech_run (at_check st f) <= speech_run st)%nat).
      { rewrite at_check_speech_run, Hs.
        destruct (RELEASE_FRAMES <=? S (silence_run st))%nat; lia. }
      rewrite trigger_check_quiet in * by lia. cbn [fst snd] in *.
      destruct (IH (at_check st f)) as [I1 I2]; [lia | exact Hrest |].
      split; [constructor; [reflexivity | exact I1] | lia].
    + rewrite (process_warm_up _ _ _ Hb) in *. cbn [fst snd] in *.
      destruct (IH (warm_up start st f)) as [I1 I2]; [exact Hlt | exact Hrest |].
      split; [constructor; [reflexivity | exact I1] | exact I2].
Qed.

(** X3. No speech, no trigger: in a run from the initial state in which
    no frame is classified as speech, no trigger is emitted on any frame
    and [speech_run] is 0 at the end. *)
Theorem no_speech_no_trigger start frames :
  Forall (fun l => classified l <> Some true)
    (logs start initial_state frames) ->
  Forall (fun l => emitted (outcome l) = false)
    (logs start initial_state frames)
  /\ speech_run (final start initial_state frames) = 0%nat.
Proof.
  intro Hall.
  destruct (quiet_run start frames initial_state) as [H1 H2].
  - unfold ONSET_FRAMES. simpl. lia.
  - exact Hall.
  - split; [exact H1 | simpl in H2; lia].
Qed.

Lemma no_speech_no_trigger_witness :
  Forall (fun l => emitted (outcome l) = false)
    (logs start_ts initial_state (map quiet_frame (seq 0 70)))
  /\ speech_run (final start_ts initial_state (map quiet_frame (seq 0 70)))
     = 0%nat.
Proof.
  apply (no_speech_no_trigger start_ts (map quiet_frame (seq 0 70))).
  vm_compute. repeat constructor; discriminate.
Defined.

Lemma never_speech_frames (P : Frame -> Prop) start frames :
  (forall f b, P f -> is_speech b f = false) ->
  Forall P frames ->
  forall st, Forall (fun l => classified l <> Some true)
               (logs start st frames).
Proof.
  intros HP Hall. induction Hall as [|f rest Hf _ IH]; intro st.
  - constructor.
  - rewrite logs_cons. constructor; [|apply IH].
    destruct (have_baseline st) eqn:Hb.
    + rewrite (process_steady _ _ _ Hb). cbn [snd classified].
      rewrite (HP f _ Hf). discriminate.
    + rewrite (process_warm_up _ _ _ Hb). discriminate.
Qed.

Lemma is_speech_needs_zcr b f :
  zcr f < fst ZCR_RANGE \/ snd ZCR_RANGE < zcr f ->
  is_speech b f = false.
Proof.
  intros [H | H]; unfold is_speech.
  - replace (Qle_bool (fst ZCR_RANGE) (zcr f)) with false.
    + now rewrite andb_false_r.
    + symmetry. destruct (Qle_bool (fst ZCR_RANGE) (zcr f)) eqn:E; auto.
      apply Qle_bool_iff in E. exfalso. apply (Qlt_not_le _ _ H E).
  - replace (Qle_bool (zcr f) (snd ZCR_RANGE)) with false.
    + now rewrite !andb_false_r.
    + symmetry. destruct (Qle_bool (zcr f) (snd ZCR_RANGE)) eqn:E; auto.
      apply Qle_bool_iff in E. exfalso. apply (Qlt_not_le _ _ H E).
Qed.

(** X4. The zero-crossing gate: if the zero-crossing rate of every frame
    lies outside [ZCR_RANGE], no trigger is ever emitted in a run from the
    initial state, whatever the energies, the clock readings and the
    baseline are. *)
Theorem zcr_outside_range_never_triggers start frames :
  Forall (fun f => zcr f < fst ZCR_RANGE \/ snd ZCR_RANGE < zcr f) frames ->
  Forall (fun l => emitted (outcome l) = false)
    (logs start initial_state frames).
Proof.
  intro Hall.
  apply (quiet_run start frames initial_state).
  - unfold ONSET_FRAMES. simpl. lia.
  - apply (never_speech_frames _ start frames
             (fun f b => is_speech_needs_zcr b f) Hall).
Qed.

Lemma zcr_outside_range_never_triggers_witness :
  Forall (fun l => emitted (outcome l) = false)
    (logs start_ts initial_state
       [ {| db := 0; zcr := 1 # 100; clock := 1003; press_ok := true |};
         {| db := 0; zcr := 1 # 2; clock := 1006; press_ok := true |};
         {| db := 0; zcr := 0; clock := 1009; press_ok := true |};
         {| db := 0; zcr := 1 # 4; clock := 1012; press_ok := true |};
         {| db := 0; zcr := 1 # 100; clock := 1015; press_ok := true |};
         {| db := 0; zcr := 1; clock := 1018; press_ok := true |} ]).
Proof.
  apply zcr_outside_range_never_triggers.
  repeat constructor;
    solve [ left; vm_compute; reflexivity | right; vm_compute; reflexivity ].
Defined.

(** *** The baseline after warm-up *)

Lemma ewma_between lo hi b d :
  lo <= b <= hi -> lo <= d <= hi -> lo <= ewma b d <= hi.
Proof. unfold ewma, baseline_alpha. intros [? ?] [? ?]. split; lra. Qed.

Lemma py_min_between lo hi b d :
  lo <= b <= hi -> lo <= d <= hi -> lo <= py_min b d <= hi.
Proof. intros Hb Hd. destruct (py_min_cases b d) as [-> | ->]; auto. Qed.

Lemma baseline_step_between start lo hi st f :
  lo <= baseline_db st <= hi -> lo <= db f <= hi ->
  lo <= baseline_db (fst (process_frame start st f)) <= hi.
Proof.
  intros Hb Hd. destruct (have_baseline st) eqn:E.
  - rewrite (steady_baseline _ _ _ E). now apply ewma_between.
  - rewrite (process_warm_up _ _ _ E). cbn [fst baseline_db warm_up].
    now apply py_min_between.
Qed.



Lemma steady_baseline_fold start frames : forall st,
  have_baseline st = true ->
  baseline_db (final start st frames)
  = fold_left ewma (map db frames) (baseline_db st).
Proof.
  induction frames as [|f rest IH]; intros st Hb.
  - reflexivity.
  - rewrite final_cons, IH by now apply process_have_baseline.
    now rewrite (steady_baseline _ _ _ Hb).
Qed.

(** X6. After warm-up the baseline is updated on every frame and depends
    on the energies alone: it is the moving average folded over the
    energies of the frames, whether they are classified as speech or not,
    whether a trigger fires or not and whether the key press fails. *)
Theorem baseline_tracks_every_frame start frames st :
  have_baseline st = true ->
  baseline_db (final start st frames)
  = fold_left ewma (map db frames) (baseline_db st)
  /\ forall frames',
       map db frames' = map db frames ->
       baseline_db (final start st frames')
       = baseline_db (final start st frames).
Proof.
  intro Hb. split.
  - now apply steady_baseline_fold.
  - intros frames' E. rewrite !steady_baseline_fold by exact Hb.
    now rewrite E.
Qed.

Lemma baseline_tracks_every_frame_witness :
  baseline_db (final start_ts steady_state long_speech_then_dropout)
  = fold_left ewma (map db long_speech_then_dropout)
      (baseline_db steady_state)
  /\ forall frames',
       map db frames' = map db long_speech_then_dropout ->
       baseline_db (final start_ts steady_state frames')
       = baseline_db (final start_ts steady_state long_speech_then_dropout).
Proof.
  apply (baseline_tracks_every_frame start_ts long_speech_then_dropout
           steady_state).
  vm_compute. reflexivity.
Defined.





(** *** Energy alone *)

Lemma quiet_band_never_speech start lo hi frames : forall st,
  lo <= baseline_db st ->
  hi < lo + BOOST_DB ->
  Forall (fun f => lo <= db f <= hi) frames ->
  Forall (fun l => classified l <> Some true) (logs start st frames).
Proof.
  induction frames as [|f rest IH]; intros st Hb Hband Hall.
  - constructor.
  - inversion Hall as [|? ? Hf Hrest]; subst.
    assert (Hhi : exists top, lo <= baseline_db st <= top /\ lo <= db f <= top).
    { destruct (Qlt_le_dec (baseline_db st) (db f)).
      - exists (db f). repeat split; try lra; apply Hf.
      - exists (baseline_db st). repeat split; try lra; apply Hf. }
    destruct Hhi as (top & Hb' & Hd').
    rewrite logs_cons. constructor.
    + destruct (have_baseline st) eqn:E.
      * rewrite (process_steady _ _ _ E). cbn [snd classified].
        replace (is_speech (ewma (baseline_db st) (db f)) f) with false;
          [discriminate|].
        symmetry. unfold is_speech.
        replace (Qle_bool (ewma (baseline_db st) (db f) + BOOST_DB) (db f))
          with false; [reflexivity|].
        symmetry.
        destruct (Qle_bool (ewma (baseline_db st) (db f) + BOOST_DB) (db f))
          eqn:L; [|reflexivity].
        apply Qle_bool_iff in L.
        pose proof (ewma_between lo top _ _ Hb' Hd') as [Hlo _].
        destruct Hf as [_ Hf]. exfalso. lra.
      * rewrite (process_warm_up _ _ _ E). discriminate.
    + apply IH; [|exact Hband | exact Hrest].
      apply (baseline_step_between start lo top st f Hb' Hd').
Qed.

(** X8. Energy alone: if the energies of all frames of a run from the
    initial state lie in a band [lo, hi] that is narrower than [BOOST_DB]
    and starts at or below the initial baseline of -60 dB, no frame is
    classified as speech and no trigger is emitted. *)
Theorem quiet_band_never_triggers start lo hi frames :
  lo <= - (60) ->
  hi < lo + BOOST_DB ->
  Forall (fun f => lo <= db f <= hi) frames ->
  Forall (fun l => classified l <> Some true)
    (logs start initial_state frames)
  /\ Forall (fun l => emitted (outcome l) = false)
       (logs start initial_state frames).
Proof.
  intros Hlo Hband Hall.
  assert (Hq : Forall (fun l => classified l <> Some true)
                 (logs start initial_state frames))
    by (apply (quiet_band_never_speech start lo hi); auto).
  split; [exact Hq|].
  apply (quiet_run start frames initial_state); [|exact Hq].
  unfold ONSET_FRAMES. simpl. lia.
Qed.

Lemma quiet_band_never_triggers_witness :
  Forall (fun l => classified l <> Some true)
    (logs start_ts initial_state
       [ {| db := - (100); zcr := 1 # 10; clock := 1003; press_ok := true |};
         {| db := - (90); zcr := 1 # 10; clock := 1006; press_ok := true |};
         {| db := - (95); zcr := 1 # 10; clock := 1009; press_ok := true |};
         {| db := - (89); zcr := 1 # 10; clock := 1012; press_ok := true |} ])
  /\ Forall (fun l => emitted (outcome l) = false)
       (logs start_ts initial_state
          [ {| db := - (100); zcr := 1 # 10; clock := 1003; press_ok := true |};
            {| db := - (90); zcr := 1 # 10; clock := 1006; press_ok := true |};
            {| db := - (95); zcr := 1 # 10; clock := 1009; press_ok := true |};
            {| db := - (89); zcr := 1 # 10; clock := 1012; press_ok := true |} ]).
Proof.
  apply (quiet_band_never_triggers start_ts (- (100)) (- (89))).
  - vm_compute. discriminate.
  - vm_compute. reflexivity.
  - repeat constructor; vm_compute; discriminate.
Defined.

(** *** Counting speech frames *)

Lemma speech_count_app (ls1 ls2 : list Log) :
  speech_count (ls1 ++ ls2) = (speech_count ls1 + speech_count ls2)%nat.
Proof. unfold speech_count. now rewrite filter_app, length_app. Qed.

Lemma speech_run_step start st f :
  (speech_run (fst (process_frame start st f))
   <= speech_run st + speech_count [snd (process_frame start st f)])%nat.
Proof.
  destruct (have_baseline st) eqn:Hb.
  - rewrite (process_steady _ _ _ Hb). cbn [fst snd].
    assert (H : (speech_run (at_check st f)
                 <= speech_run st
                    + speech_count
                        [{| classified :=
                              Some (is_speech (ewma (baseline_db st) (db f)) f);
                            outcome :=
                              snd (trigger_check (clock f) (press_ok f)
                                     (at_check st f)) |}])%nat).
    { rewrite at_check_speech_run. unfold speech_count. cbn [filter classified].
      destruct (is_speech _ _); cbn [length];
        [|destruct (RELEASE_FRAMES <=? S (silence_run st))%nat]; lia. }
    destruct (trigger_check_speech_run (clock f) (press_ok f) (at_check st f))
      as [E | E]; rewrite E; lia.
  - rewrite (process_warm_up _ _ _ Hb). cbn [fst snd warm_up speech_run]. lia.
Qed.

Lemma speech_run_bounded start frames : forall st,
  (speech_run (final start st frames)
   <= speech_run st + speech_count (logs start st frames))%nat.
Proof.
  induction frames as [|f rest IH]; intro st.
  - unfold final. simpl. lia.
  - rewrite final_cons, logs_cons.
    change (snd (process_frame start st f)
            :: logs start (fst (process_frame start st f)) rest)
      with ([snd (process_frame start st f)]
            ++ logs start (fst (process_frame start st f)) rest).
    rewrite speech_count_app.
    pose proof (IH (fst (process_frame start st f))).
    pose proof (speech_run_step start st f). lia.
Qed.

(** X9. A trigger needs [ONSET_FRAMES] speech frames: in a run that
    starts with [speech_run] at 0 (the initial state, or the state a tap
    leaves), when a trigger is emitted on frame [j] at least
    [ONSET_FRAMES] of the frames up to and including [j] were classified
    as speech. *)
Theorem trigger_needs_onset_frames start st frames j lj :
  speech_run st = 0%nat ->
  nth_error (logs start st frames) j = Some lj ->
  emitted (outcome lj) = true ->
  (ONSET_FRAMES <= speech_count (logs start st (firstn (S j) frames)))%nat.
Proof.
  intros H0 Hlj Hem.
  destruct (nth_error frames j) as [f|] eqn:Hf.
  - rewrite (logs_nth _ _ _ _ _ Hf) in Hlj. injection Hlj as <-.
    rewrite (firstn_S_nth _ _ _ Hf), logs_app, speech_count_app, logs_cons.
    pose proof (speech_run_bounded start (firstn j frames) st) as Hpre.
    destruct (emitted_steady _ _ _ Hem) as (Hb & Hrun & _).
    rewrite (process_steady _ _ _ Hb). cbn [snd].
    rewrite at_check_speech_run in Hrun.
    unfold speech_count at 2. cbn [filter classified logs run snd].
    destruct (is_speech _ _); cbn [length].
    + lia.
    + destruct (RELEASE_FRAMES <=? _)%nat; unfold ONSET_FRAMES in *; lia.
  - apply nth_error_None in Hf.
    assert (nth_error (logs start st frames) j = None)
      by (apply nth_error_None; now rewrite logs_length).
    congruence.
Qed.

Lemma trigger_needs_onset_frames_witness :
  (ONSET_FRAMES
   <= speech_count
        (logs start_ts steady_state (firstn 4 long_speech_then_dropout)))%nat.
Proof.
  apply (trigger_needs_onset_frames start_ts steady_state
           long_speech_then_dropout 3
           {| classified := Some true; outcome := Tapped |}).
  - vm_compute. reflexivity.
  - vm_compute. reflexivity.
  - reflexivity.
Defined.

(** *** Sustained silence *)

Lemma release_step start st f :
  ((RELEASE_FRAMES <= silence_run st)%nat -> speech_run st = 0%nat) ->
  (RELEASE_FRAMES <= silence_run (fst (process_frame start st f)))%nat ->
  speech_run (fst (process_frame start st f)) = 0%nat.
Proof.
  intros Inv. destruct (have_baseline st) eqn:Hb.
  - rewrite (process_steady _ _ _ Hb). cbn [fst].
    rewrite trigger_check_silence_run, at_check_silence_run.
    intro H.
    destruct (trigger_check_speech_run (clock f) (press_ok f) (at_check st f))
      as [E | E]; rewrite E; [|reflexivity].
    rewrite at_check_speech_run.
    destruct (is_speech _ _).
    + unfold RELEASE_FRAMES in H. lia.
    + apply Nat.leb_le in H. now rewrite H.
  - rewrite (process_warm_up _ _ _ Hb). exact Inv.
Qed.

(** X10. Sustained silence always cancels an onset in progress: in every
    state a run from the initial state can reach, [speech_run] is 0
    whenever [silence_run] is at least [RELEASE_FRAMES]. *)
Theorem long_silence_means_no_onset start frames :
  (RELEASE_FRAMES <= silence_run (final start initial_state frames))%nat ->
  speech_run (final start initial_state frames) = 0%nat.
Proof.
  assert (G : forall st,
             ((RELEASE_FRAMES <= silence_run st)%nat -> speech_run st = 0%nat) ->
             (RELEASE_FRAMES <= silence_run (final start st frames))%nat ->
             speech_run (final start st frames) = 0%nat).
  { induction frames as [|f rest IH]; intros st Inv.
    - exact Inv.
    - rewrite final_cons. apply IH. now apply release_step. }
  apply G. reflexivity.
Qed.

Lemma long_silence_means_no_onset_witness :
  speech_run
    (final start_ts initial_state
       (warm_up_frames ++ map (voiced_frame true) (seq 67 3)
          ++ map quiet_frame (seq 70 8)))
  = 0%nat.
Proof.
  apply long_silence_means_no_onset.
  vm_compute. repeat constructor.
Defined.

(** *** The threshold *)






(** *** Speech during the cooldown and after a failed key press *)

Lemma trigger_check_suppressed now ok st :
  now - last_press st <= PRESS_COOLDOWN ->
  trigger_check now ok st = (st, NoTrigger).
Proof.
  intro H. unfold trigger_check.
  replace (Qlt_bool PRESS_COOLDOWN (now - last_press st)) with false.
  - now rewrite andb_false_r.
  - symmetry.
    destruct (Qlt_bool PRESS_COOLDOWN (now - last_press st)) eqn:E; auto.
    apply Qlt_bool_iff in E. exfalso. apply (Qlt_not_le _ _ E H).
Qed.

Lemma speech_during_cooldown start frames : forall st,
  have_baseline st = true ->
  Forall (fun l => classified l = Some true) (logs start st frames) ->
  Forall (fun g => clock g - last_press st <= PRESS_COOLDOWN) frames ->
  map outcome (logs start st frames) = repeat NoTrigger (length frames)
  /\ speech_run (final start st frames) = (speech_run st + length frames)%nat
  /\ last_press (final start st frames) = last_press st
  /\ have_baseline (final start st frames) = true.
Proof.
  induction frames as [|f rest IH]; intros st Hb Hall Hcool.
  - unfold final. simpl. repeat split; auto.
  - rewrite logs_cons in Hall. inversion Hall as [|? ? Hf Hrest]; subst.
    inversion Hcool as [|? ? Hc Hcrest]; subst.
    apply classified_steady in Hf. destruct Hf as [_ Hs].
    assert (E : process_frame start st f =
                (at_check st f,
                 {| classified := Some true; outcome := NoTrigger |})).
    { rewrite (process_steady _ _ _ Hb), Hs.
      rewrite trigger_check_suppressed; [reflexivity|].
      now rewrite at_check_last_press. }
    rewrite E in Hrest. cbn [fst] in Hrest.
    rewrite logs_cons, final_cons, E. cbn [fst snd].
    destruct (IH (at_check st f)) as (I1 & I2 & I3 & I4); auto.
    + now rewrite at_check_have_baseline.
    + now rewrite at_check_last_press.
    + rewrite map_cons, I1, I2, I3, I4, at_check_last_press.
      rewrite at_check_speech_run, Hs. cbn [outcome repeat length].
      repeat split; auto; lia.
Qed.

(** X25. Speech keeps being counted during the cooldown, so under
    uninterrupted speech the next trigger comes with the first frame read
    after the cooldown has ended: if all frames are classified as speech,
    the frames [pre] are read within [PRESS_COOLDOWN] of the last tap and
    [f] is read later, and [speech_run] reaches [ONSET_FRAMES] by [f],
    then no trigger is emitted on [pre] and one is emitted on [f]. *)
Theorem speech_retriggers_when_cooldown_ends start st pre f :
  Forall (fun l => classified l = Some true) (logs start st (pre ++ [f])) ->
  Forall (fun g => clock g - last_press st <= PRESS_COOLDOWN) pre ->
  PRESS_COOLDOWN < clock f - last_press st ->
  (ONSET_FRAMES <= speech_run st + length pre + 1)%nat ->
  map outcome (logs start st (pre ++ [f]))
  = repeat NoTrigger (length pre)
    ++ [if press_ok f then Tapped else KeyboardError].
Proof.
  intros Hall Hpre Hcool Hrun.
  assert (Hb : have_baseline st = true).
  { destruct pre as [|g rest]; simpl app in Hall;
      rewrite logs_cons in Hall; inversion Hall as [|? ? Hg _]; subst;
      now apply classified_steady in Hg. }
  rewrite logs_app in Hall. apply Forall_app in Hall.
  destruct Hall as [Hspre Hlast].
  destruct (speech_during_cooldown start pre st Hb Hspre Hpre)
    as (P1 & P2 & P3 & P4).
  rewrite logs_cons in Hlast. inversion Hlast as [|? ? Hf _]; subst.
  apply classified_steady in Hf. destruct Hf as [_ Hs].
  rewrite logs_app, map_app, P1, logs_cons.
  rewrite (process_steady _ _ _ P4). cbn [fst snd map outcome].
  rewrite trigger_check_fires.
  - now destruct (press_ok f).
  - rewrite at_check_speech_run, Hs. lia.
  - now rewrite at_check_last_press, P3.
Qed.

Lemma speech_retriggers_when_cooldown_ends_witness :
  map outcome
    (logs start_ts
       (final start_ts steady_state (map (voiced_frame true) (seq 67 4)))
       (map (voiced_frame true) (seq 71 83) ++ [voiced_frame true 154]))
  = repeat NoTrigger (length (map (voiced_frame true) (seq 71 83)))
    ++ [if press_ok (voiced_frame true 154) then Tapped else KeyboardError].
Proof.
  apply (speech_retriggers_when_cooldown_ends start_ts
           (final start_ts steady_state (map (voiced_frame true) (seq 67 4)))
           (map (voiced_frame true) (seq 71 83)) (voiced_frame true 154)).
  - vm_compute. repeat constructor.
  - repeat constructor; vm_compute; discriminate.
  - vm_compute. reflexivity.
  - vm_compute. repeat constructor.
Defined.

Lemma keyboard_error_state start st f :
  outcome (snd (process_frame start st f)) = KeyboardError ->
  fst (process_frame start st f) = at_check st f.
Proof.
  destruct (have_baseline st) eqn:Hb.
  - rewrite (process_steady _ _ _ Hb). cbn [fst snd outcome].
    unfold trigger_check.
    destruct (_ && _); [destruct (press_ok f)|]; cbn [fst snd]; congruence.
  - rewrite (process_warm_up _ _ _ Hb). discriminate.
Qed.

(** X26. A failed key press is tried again right away: when the key press
    raised on a frame and the next frame is classified as speech and read
    no earlier, a trigger is emitted on that next frame too. *)
Theorem failed_press_is_retried start st f g :
  outcome (snd (process_frame start st f)) = KeyboardError ->
  clock f <= clock g ->
  classified (snd (process_frame start (fst (process_frame start st f)) g))
  = Some true ->
  emitted
    (outcome (snd (process_frame start (fst (process_frame start st f)) g)))
  = true.
Proof.
  intros Herr Hclk Hsp.
  assert (Hem : emitted (outcome (snd (process_frame start st f))) = true)
    by now rewrite Herr.
  apply emitted_steady in Hem. destruct Hem as (Hb & Hrun & Hcool).
  rewrite (keyboard_error_state _ _ _ Herr) in *.
  apply classified_steady in Hsp. destruct Hsp as [Hb' Hs].
  rewrite (process_steady _ _ _ Hb'). cbn [snd outcome].
  rewrite trigger_check_fires.
  - now destruct (press_ok g).
  - rewrite at_check_speech_run, Hs. lia.
  - rewrite !at_check_last_press. lra.
Qed.

Lemma failed_press_is_retried_witness :
  emitted
    (outcome
       (snd (process_frame start_ts
               (fst (process_frame start_ts
                       (final start_ts steady_state
                          (map (voiced_frame true) (seq 67 3)))
                       (voiced_frame false 70)))
               (voiced_frame false 71))))
  = true.
Proof.
  apply failed_press_is_retried; vm_compute; try reflexivity; discriminate.
Defined.

End DetectorInvariants.

(** * Further properties of the filter and of the features *)

Module SignalInvariants.

Import Filter Features Scenario SignalFacts.

(** *** The zero-crossing rate *)

Lemma zero_crossing_rate_eq (xf : list Q) :
  zero_crossing_rate xf
  = if (1 <? length xf)%nat
    then inject_Z (Z.of_nat (sign_changes xf))
         / inject_Z (Z.of_nat (length xf - 1))
    else 0.
Proof.
  unfold zero_crossing_rate, mean_bool.
  now rewrite sign_flips_count, sign_flips_length, length_map.
Qed.

Lemma sign_flips_scale (s : Z) (signs : list Z) :
  s <> 0%Z ->
  sign_flips (map (Z.mul s) signs) = sign_flips signs.
Proof.
  intro Hs. induction signs as [|a rest IH]; [reflexivity|].
  destruct rest as [|b rest]; [reflexivity|].
  change (map (Z.mul s) (a :: b :: rest))
    with ((s * a)%Z :: (s * b)%Z :: map (Z.mul s) rest).
  rewrite !sign_flips_cons2.
  change ((s * b)%Z :: map (Z.mul s) rest) with (map (Z.mul s) (b :: rest)).
  rewrite IH. f_equal. f_equal.
  destruct (a =? b)%Z eqn:E.
  - apply Z.eqb_eq in E. subst. apply Z.eqb_refl.
  - apply Z.eqb_neq in E. apply Z.eqb_neq. intro H. apply E.
    now apply (Z.mul_reg_l _ _ s).
Qed.

Lemma np_sign_scale (c x : Q) :
  np_sign (c * x) = (Z.sgn (Qnum c) * np_sign x)%Z.
Proof. unfold np_sign. simpl. apply Z.sgn_mul. Qed.

(** X11. The zero-crossing rate does not depend on the volume or on the
    polarity of the signal: multiplying every sample of a frame by the
    same non-zero factor leaves it unchanged. *)
Theorem zero_crossing_rate_scale_invariant (c : Q) (xf : list Q) :
  ~ c == 0 ->
  zero_crossing_rate (map (Qmult c) xf) = zero_crossing_rate xf.
Proof.
  intro Hc.
  assert (Hs : Z.sgn (Qnum c) <> 0%Z).
  { intro H. apply -> Z.sgn_null_iff in H. apply Hc.
    unfold Qeq. simpl. rewrite H. reflexivity. }
  unfold zero_crossing_rate.
  rewrite !length_map.
  replace (map np_sign (map (Qmult c) xf))
    with (map (Z.mul (Z.sgn (Qnum c))) (map np_sign xf)).
  - now rewrite sign_flips_scale.
  - rewrite !map_map. apply map_ext. intro x. symmetry. apply np_sign_scale.
Qed.

Lemma zero_crossing_rate_scale_invariant_witness :
  zero_crossing_rate (map (Qmult (- (3 # 2))) [1 # 2; - (1 # 4); 0; 1 # 8])
  = zero_crossing_rate [1 # 2; - (1 # 4); 0; 1 # 8].
Proof.
  apply zero_crossing_rate_scale_invariant.
  intro H. discriminate H.
Defined.

Lemma same_sign_no_changes (sg : Z) (xf : list Q) :
  Forall (fun x => np_sign x = sg) xf -> sign_changes xf = 0%nat.
Proof.
  induction xf as [|a rest IH]; intro Hall; [reflexivity|].
  inversion Hall as [|? ? Ha Hrest]; subst.
  destruct rest as [|b rest]; [reflexivity|].
  inversion Hrest as [|? ? Hb _]; subst.
  change (sign_changes (a :: b :: rest))
    with ((if (np_sign a =? np_sign b)%Z then 0 else 1)
          + sign_changes (b :: rest))%nat.
  rewrite Hb, Z.eqb_refl, (IH Hrest). reflexivity.
Qed.

(** X12. A frame whose samples all have the same sign (all positive, all
    negative, or all zero) has zero-crossing rate 0. *)
Theorem zero_crossing_rate_of_one_sign (sg : Z) (xf : list Q) :
  Forall (fun x => np_sign x = sg) xf ->
  zero_crossing_rate xf == 0.
Proof.
  intro Hall. rewrite zero_crossing_rate_eq.
  rewrite (same_sign_no_changes sg xf Hall).
  destruct (1 <? length xf)%nat; [|reflexivity].
  unfold Qdiv. apply Qmult_0_l.
Qed.

Lemma zero_crossing_rate_of_one_sign_witness :
  zero_crossing_rate [1 # 2; 1 # 4; 3; 1 # 8] == 0.
Proof.
  apply (zero_crossing_rate_of_one_sign 1%Z).
  repeat constructor.
Defined.

(** *** The band-pass filter *)

Section Coefficients.

Variables B A : list Q.

Lemma lfilter_zi_length (x : list Q) : forall z,
  length (fst (lfilter_zi B A z x)) = length x.
Proof.
  induction x as [|s rest IH]; intro z; [reflexivity|].
  rewrite lfilter_zi_cons. cbn [fst length]. now rewrite IH.
Qed.

(** X13. The filtered frame has as many samples as the frame. *)
Theorem bandpass_keeps_length (x : list Q) :
  length (bandpass B A x) = length x.
Proof.
  unfold bandpass, lfilter. generalize (zero_delay B A) as z.
  induction x as [|s rest IH]; intro z; [reflexivity|].
  rewrite lfilter_zi_cons. cbn [fst length]. now rewrite IH.
Qed.

(** X14. The filter is causal: the first samples of the output depend
    only on the first samples of the input. Filtering a frame extended by
    further samples gives, on the original length, the filtered frame. *)
Theorem bandpass_is_causal (x1 x2 : list Q) :
  firstn (length x1) (bandpass B A (x1 ++ x2)) = bandpass B A x1.
Proof.
  unfold bandpass, lfilter. rewrite lfilter_zi_app. cbn [fst].
  rewrite <- (lfilter_zi_length x1 (zero_delay B A)) at 1.
  rewrite firstn_app, Nat.sub_diag, firstn_all. cbn [firstn].
  apply app_nil_r.
Qed.

Lemma Qred_zero (q : Q) : Qnum q = 0%Z -> Qred q = 0.
Proof. destruct q as [n d]. simpl. intros ->. reflexivity. Qed.

Lemma filter_step_silence (x : Q) :
  Qnum x = 0%Z ->
  filter_step B A (zero_delay B A) x = (0, zero_delay B A).
Proof.
  intro Hx.
  assert (Z0 : forall i, nth i (zero_delay B A) 0 = 0).
  { intro i. unfold zero_delay.
    destruct (Nat.lt_ge_cases i (delay_len B A)).
    - apply nth_repeat_lt; assumption.
    - apply nth_overflow. now rewrite repeat_length. }
  assert (Y : Qred (bn B A 0 * x + nth 0 (zero_delay B A) 0) = 0).
  { apply Qred_zero. rewrite Z0. simpl. rewrite Hx. ring. }
  assert (G : forall n k,
             map (fun i => Qred (bn B A (S i) * x
                                 + nth (S i) (zero_delay B A) 0
                                 - an A (S i) * 0)) (seq k n)
             = repeat 0 n).
  { induction n as [|n IH]; intro k; [reflexivity|].
    cbn [seq map repeat]. rewrite IH. f_equal.
    apply Qred_zero. rewrite Z0. simpl. rewrite Hx. ring. }
  unfold filter_step. rewrite Y. f_equal.
  exact (G (delay_len B A) 0%nat).
Qed.

Lemma lfilter_zi_silence (x : list Q) :
  Forall (fun q => Qnum q = 0%Z) x ->
  lfilter_zi B A (zero_delay B A) x = (repeat 0 (length x), zero_delay B A).
Proof.
  induction x as [|s rest IH]; intro Hall; [reflexivity|].
  inversion Hall as [|? ? Hs Hrest]; subst.
  rewrite lfilter_zi_cons, (filter_step_silence s Hs). cbn [fst snd].
  now rewrite (IH Hrest).
Qed.

(** X15. Silence stays silence: a frame of zero samples is filtered to a
    frame of zero samples, whatever the coefficients of the filter. *)
Theorem bandpass_of_silence (x : list Q) :
  Forall (fun q => Qnum q = 0%Z) x ->
  bandpass B A x = repeat 0 (length x).
Proof.
  intro Hall. unfold bandpass, lfilter.
  now rewrite (lfilter_zi_silence x Hall).
Qed.

End Coefficients.

Lemma bandpass_of_silence_witness :
  bandpass butter_B butter_A (map normalize silent_frame)
  = repeat 0 (length (map normalize silent_frame)).
Proof.
  apply bandpass_of_silence.
  unfold silent_frame. rewrite map_repeat.
  apply Forall_forall. intros q Hq. apply repeat_spec in Hq. now subst.
Defined.

(** *** Amplifying a frame *)

Lemma np_sign_Qeq (a b : Q) : a == b -> np_sign a = np_sign b.
Proof.
  unfold Qeq, np_sign. intro H.
  apply (f_equal Z.sgn) in H. rewrite !Z.sgn_mul in H.
  simpl in H. now rewrite !Z.mul_1_r in H.
Qed.

Section Gain.

Variables B A : list Q.
Variable c : Q.

Lemma scaled_nth (z1 z2 : list Q) :
  Forall2 (fun a b : Q => b == c * a) z1 z2 ->
  forall i, nth i z2 0 == c * nth i z1 0.
Proof.
  induction 1 as [|a b z1 z2 Hab _ IH]; intro i.
  - destruct i; simpl; ring.
  - destruct i; simpl; [exact Hab | apply IH].
Qed.

Lemma scaled_map_seq (f1 f2 : nat -> Q) (l : list nat) :
  (forall i, f2 i == c * f1 i) ->
  Forall2 (fun a b : Q => b == c * a) (map f1 l) (map f2 l).
Proof.
  intro H. induction l as [|i l IH]; simpl; constructor; auto.
Qed.

Lemma scaled_zero_delay :
  Forall2 (fun a b : Q => b == c * a) (zero_delay B A) (zero_delay B A).
Proof.
  unfold zero_delay. induction (delay_len B A) as [|n IH]; simpl;
    constructor; auto. ring.
Qed.

Lemma filter_step_scaled (z1 z2 : list Q) (x1 x2 : Q) :
  Forall2 (fun a b : Q => b == c * a) z1 z2 -> x2 == c * x1 ->
  fst (filter_step B A z2 x2) == c * fst (filter_step B A z1 x1)
  /\ Forall2 (fun a b : Q => b == c * a)
       (snd (filter_step B A z1 x1)) (snd (filter_step B A z2 x2)).
Proof.
  intros Hz Hx. unfold filter_step. cbn [fst snd].
  assert (Y : Qred (bn B A 0 * x2 + nth 0 z2 0)
              == c * Qred (bn B A 0 * x1 + nth 0 z1 0)).
  { rewrite !Qred_correct, Hx, (scaled_nth z1 z2 Hz 0). ring. }
  split; [exact Y|].
  apply scaled_map_seq. intro i. cbv beta.
  rewrite !Qred_correct, Hx, (scaled_nth z1 z2 Hz (S i)).
  rewrite ?Hx, (scaled_nth z1 z2 Hz 0). ring.
Qed.

Lemma lfilter_zi_scaled (x1 x2 : list Q) :
  Forall2 (fun a b : Q => b == c * a) x1 x2 ->
  forall z1 z2,
  Forall2 (fun a b : Q => b == c * a) z1 z2 ->
  Forall2 (fun a b : Q => b == c * a)
    (fst (lfilter_zi B A z1 x1)) (fst (lfilter_zi B A z2 x2)).
Proof.
  induction 1 as [|a b x1 x2 Hab _ IH]; intros z1 z2 Hz.
  - constructor.
  - rewrite !lfilter_zi_cons. cbn [fst].
    destruct (filter_step_scaled z1 z2 a b Hz Hab) as [Hy Hz'].
    constructor; [exact Hy | now apply IH].
Qed.

Lemma scaled_signs (l1 l2 : list Q) :
  Forall2 (fun a b : Q => b == c * a) l1 l2 ->
  map np_sign l2 = map (Z.mul (Z.sgn (Qnum c))) (map np_sign l1).
Proof.
  induction 1 as [|a b l1 l2 Hab _ IH]; [reflexivity|].
  cbn [map]. rewrite IH. f_equal.
  rewrite (np_sign_Qeq _ _ Hab). apply np_sign_scale.
Qed.

Lemma scaled_zero_crossing_rate (l1 l2 : list Q) :
  ~ c == 0 -> Forall2 (fun a b : Q => b == c * a) l1 l2 ->
  zero_crossing_rate l2 = zero_crossing_rate l1.
Proof.
  intros Hc H.
  assert (Hs : Z.sgn (Qnum c) <> 0%Z).
  { intro E. apply -> Z.sgn_null_iff in E. apply Hc.
    unfold Qeq. simpl. rewrite E. reflexivity. }
  unfold zero_crossing_rate.
  rewrite !length_map, (scaled_signs l1 l2 H), sign_flips_scale by exact Hs.
  now rewrite (Forall2_length H).
Qed.

End Gain.

(** X28. The filter is homogeneous: filtering a frame whose samples are
    all multiplied by [c] gives the filtered frame with every sample
    multiplied by [c]. *)
Theorem bandpass_is_homogeneous (B A : list Q) (c : Q) (x : list Q) :
  Forall2 (fun a b : Q => b == c * a)
    (bandpass B A x) (bandpass B A (map (Qmult c) x)).
Proof.
  unfold bandpass, lfilter. apply lfilter_zi_scaled.
  - induction x as [|s rest IH]; simpl; constructor; [reflexivity | exact IH].
  - apply scaled_zero_delay.
Qed.

Lemma normalize_scaled (k : Z) (x : list Z) :
  Forall2 (fun a b : Q => b == inject_Z k * a)
    (map normalize x) (map normalize (map (Z.mul k) x)).
Proof.
  induction x as [|s rest IH]; simpl; constructor; [|exact IH].
  unfold normalize, Qdiv. rewrite inject_Z_mult. ring.
Qed.

(** X27. The zero-crossing feature does not depend on the gain of the
    input: multiplying every sample of a frame by the same non-zero
    integer leaves the zero-crossing rate that [frame_features] returns
    unchanged, whatever the filter coefficients are. *)
Theorem zcr_feature_gain_invariant
  (B A : list Q) (energy_db : list Q -> Q) (k : Z) (x : list Z) :
  k <> 0%Z ->
  snd (frame_features B A energy_db (map (Z.mul k) x))
  = snd (frame_features B A energy_db x).
Proof.
  intro Hk. unfold frame_features. cbn [snd].
  apply (scaled_zero_crossing_rate (inject_Z k)).
  - intro E. apply Hk. unfold Qeq in E. simpl in E. lia.
  - unfold bandpass, lfilter. apply lfilter_zi_scaled.
    + apply normalize_scaled.
    + apply scaled_zero_delay.
Qed.

Lemma zcr_feature_gain_invariant_witness :
  snd (frame_features butter_B butter_A (fun _ => 0)
         (map (Z.mul 3) [100; -250; 0; 40; 41; -7]%Z))
  = snd (frame_features butter_B butter_A (fun _ => 0)
           [100; -250; 0; 40; 41; -7]%Z).
Proof.
  apply zcr_feature_gain_invariant. discriminate.
Defined.

End SignalInvariants.

(** * Further properties of the chunking and of the consumer loop *)

Module PipelineFacts.

Import Detector Filter Features Chunking Pipeline Scenario.
Import DetectorFacts DetectorInvariants SignalFacts SignalInvariants
  ChunkingFacts.

(** *** Blocks and frames *)

Lemma chunk_loop_short blk fuel data :
  (length data < blk)%nat -> chunk_loop blk fuel 0 data = [].
Proof.
  intro H. destruct fuel as [|fuel]; [reflexivity|].
  cbn [chunk_loop].
  replace (0 + blk <=? length data)%nat with false; [reflexivity|].
  symmetry. apply Nat.leb_gt. lia.
Qed.

Lemma chunk_loop_exact blk data :
  (0 < blk)%nat -> length data = blk ->
  chunk_loop blk (length data) 0 data = [data].
Proof.
  intros Hpos Hlen. rewrite Hlen at 1.
  destruct blk as [|b]; [lia|].
  cbn [chunk_loop].
  replace (0 + S b <=? length data)%nat with true
    by (symmetry; apply Nat.leb_le; lia).
  cbn [skipn]. rewrite firstn_all2 by lia. f_equal.
  destruct b as [|b]; [reflexivity|].
  cbn [chunk_loop].
  replace (0 + S (S b) + S (S b) <=? length data)%nat with false;
    [reflexivity|].
  symmetry. apply Nat.leb_gt. lia.
Qed.

Lemma chunk_loop_nth blk data fuel : forall offset k,
  (k < length (chunk_loop blk fuel offset data))%nat ->
  nth k (chunk_loop blk fuel offset data) []
  = firstn blk (skipn (offset + k * blk) data).
Proof.
  induction fuel as [|fuel IH]; intros offset k Hk.
  - simpl in Hk. lia.
  - cbn [chunk_loop] in *.
    destruct (offset + blk <=? length data)%nat; [|simpl in Hk; lia].
    destruct k as [|k].
    + cbn [nth]. now rewrite Nat.mul_0_l, Nat.add_0_r.
    + cbn [nth length] in *. rewrite IH by lia.
      f_equal. f_equal. lia.
Qed.

(** X16. With the block size the stream is opened with, chunking does
    nothing: a block of exactly [BLOCK] samples is one frame, the block
    itself. *)
Theorem exact_block_is_one_frame (buf : list Z) :
  length buf = BLOCK -> frames_of_block buf = [buf].
Proof.
  intro H. apply chunk_loop_exact; [apply BLOCK_pos | exact H].
Qed.

Lemma exact_block_is_one_frame_witness :
  frames_of_block silent_frame = [silent_frame].
Proof. apply exact_block_is_one_frame. reflexivity. Defined.

(** X17. A block shorter than a frame, the empty block included, gives no
    frame at all. *)
Theorem short_block_gives_no_frame (buf : list Z) :
  (length buf < BLOCK)%nat -> frames_of_block buf = [].
Proof.
  intro H. unfold frames_of_block.
  destruct (length buf) as [|n] eqn:E; [reflexivity|].
  cbn [chunk_loop]. rewrite E.
  replace (0 + BLOCK <=? S n)%nat with false; [reflexivity|].
  symmetry. apply Nat.leb_gt. lia.
Qed.

Lemma short_block_gives_no_frame_witness :
  frames_of_block (repeat 7%Z 479) = [].
Proof.
  apply short_block_gives_no_frame.
  rewrite repeat_length, (eq_refl : BLOCK = 480%nat). lia.
Defined.

(** X18. Frame number [k] of a block is the window of [BLOCK] samples that
    starts at sample [k * BLOCK]: the frames neither overlap nor leave
    gaps. *)
Theorem frame_is_window (buf : list Z) (k : nat) :
  (k < length buf / BLOCK)%nat ->
  nth k (frames_of_block buf) [] = firstn BLOCK (skipn (k * BLOCK) buf).
Proof.
  intro Hk. unfold frames_of_block.
  rewrite chunk_loop_nth; [reflexivity|].
  fold (frames_of_block buf). now rewrite frames_of_block_count.
Qed.

Lemma frame_is_window_witness :
  nth 1 (frames_of_block (repeat 1%Z 480 ++ repeat 2%Z 485)) []
  = firstn BLOCK (skipn (1 * BLOCK) (repeat 1%Z 480 ++ repeat 2%Z 485)).
Proof.
  apply frame_is_window. vm_compute. repeat constructor.
Defined.

(** X19. Chunking loses no sample exactly when the length of the block is
    a multiple of [BLOCK]: only then do the frames of a block, put
    together, give the block back. *)
Theorem chunking_lossless_iff_multiple (buf : list Z) :
  concat (frames_of_block buf) = buf <-> (length buf mod BLOCK = 0)%nat.
Proof.
  rewrite frames_of_block_concat, <- Nat.Div0.div_exact.
  pose proof (Nat.Div0.mul_div_le (length buf) BLOCK) as Hle.
  split; intro H.
  - apply (f_equal (@length Z)) in H.
    rewrite firstn_length_le in H by exact Hle. now symmetry.
  - rewrite <- H. apply firstn_all.
Qed.

(** *** The loop, end to end *)

Section Loop.

Variables B A : list Q.
Variable energy_db : list Q -> Q.
Variable clock_at : nat -> Q.
Variable press_ok_at : nat -> bool.


Lemma observe_from_forall (P : list Z -> Prop) (R : Frame -> Prop) :
  (forall k fr, P fr ->
     R (observe B A energy_db clock_at press_ok_at k fr)) ->
  forall frames k, Forall P frames ->
  Forall R (observe_from B A energy_db clock_at press_ok_at k frames).
Proof.
  intros HPR frames. induction frames as [|fr rest IH]; intros k Hall.
  - constructor.
  - inversion Hall; subst. cbn [observe_from]. constructor; auto.
Qed.



(** X21. Blocks shorter than a frame are dropped whole: a sequence of such
    blocks leaves the state of the detector as it was at the start and
    produces no pass through the loop body. *)
Theorem short_blocks_are_ignored (start : Q) (blocks : list (list Z)) :
  Forall (fun buf => (length buf < BLOCK)%nat) blocks ->
  main_loop B A energy_db clock_at press_ok_at start blocks
  = (initial_state, []).
Proof.
  intro Hall. unfold main_loop.
  replace (frames_of_stream blocks) with (@nil (list Z)); [reflexivity|].
  symmetry. unfold frames_of_stream.
  induction Hall as [|buf rest Hbuf _ IH]; [reflexivity|].
  cbn [flat_map]. rewrite IH, app_nil_r.
  now apply chunk_loop_short.
Qed.

Lemma in_window (x : Z) (n m : nat) (data : list Z) :
  In x (firstn n (skipn m data)) -> In x data.
Proof.
  intro H. rewrite <- (firstn_skipn m data). apply in_or_app. right.
  rewrite <- (firstn_skipn n (skipn m data)). apply in_or_app. now left.
Qed.

Lemma chunk_loop_forall (P : Z -> Prop) blk data fuel : forall offset,
  Forall P data ->
  Forall (Forall P) (chunk_loop blk fuel offset data).
Proof.
  induction fuel as [|fuel IH]; intros offset Hall; cbn [chunk_loop].
  - constructor.
  - destruct (offset + blk <=? length data)%nat; [|constructor].
    constructor; [|now apply IH].
    apply Forall_forall. intros x Hx.
    apply (proj1 (Forall_forall P data) Hall).
    exact (in_window x blk offset data Hx).
Qed.

Lemma silent_frame_zcr (k : nat) (fr : list Z) :
  Forall (fun s => s = 0%Z) fr ->
  zcr (observe B A energy_db clock_at press_ok_at k fr) == 0.
Proof.
  intro Hall. unfold observe, frame_features. cbn [zcr snd].
  unfold bandpass, lfilter. rewrite lfilter_zi_silence.
  - cbn [fst]. rewrite zero_crossing_rate_eq.
    rewrite (same_sign_no_changes 0%Z).
    + destruct (1 <? _)%nat; [|reflexivity]. unfold Qdiv. apply Qmult_0_l.
    + apply Forall_forall. intros x Hx. apply repeat_spec in Hx. now subst.
  - apply Forall_forall. intros q Hq. apply in_map_iff in Hq.
    destruct Hq as (s & <- & Hs).
    rewrite (proj1 (Forall_forall _ fr) Hall s Hs). reflexivity.
Qed.

(** X22. Digital silence never taps the key: when every sample of every
    block is 0, no trigger is emitted on any frame, whatever the filter
    coefficients, the energy computation, the clock and the baseline
    are, because the zero-crossing rate of each frame is 0 and lies below
    [ZCR_RANGE]. *)
Theorem digital_silence_never_triggers (start : Q) (blocks : list (list Z)) :
  Forall (Forall (fun s => s = 0%Z)) blocks ->
  Forall (fun l => emitted (outcome l) = false)
    (snd (main_loop B A energy_db clock_at press_ok_at start blocks)).
Proof.
  intro Hall. unfold main_loop.
  change (snd (run start initial_state ?fs)) with (logs start initial_state fs).
  apply (quiet_run start _ initial_state).
  - unfold ONSET_FRAMES. simpl. lia.
  - apply (never_speech_frames
             (fun f => zcr f < fst ZCR_RANGE \/ snd ZCR_RANGE < zcr f)).
    + intros f b. apply is_speech_needs_zcr.
    + apply (observe_from_forall (Forall (fun s => s = 0%Z))).
      * intros k fr Hfr. left. rewrite (silent_frame_zcr k fr Hfr).
        reflexivity.
      * unfold frames_of_stream. apply Forall_flat_map.
        apply Forall_forall. intros buf Hbuf.
        apply chunk_loop_forall.
        apply (proj1 (Forall_forall _ blocks) Hall buf Hbuf).
Qed.

End Loop.

Lemma short_blocks_are_ignored_witness :
  main_loop butter_B butter_A (fun _ => 0) tick (fun _ => true) start_ts
    [repeat 9%Z 100; []; repeat 9%Z 479]
  = (initial_state, []).
Proof.
  apply short_blocks_are_ignored.
  rewrite (eq_refl : BLOCK = 480%nat).
  repeat constructor; rewrite ?repeat_length; simpl; lia.
Defined.

Lemma digital_silence_never_triggers_witness :
  Forall (fun l => emitted (outcome l) = false)
    (snd (main_loop butter_B butter_A (fun _ => 0) tick (fun _ => true)
            start_ts [silent_frame; silent_frame ++ silent_frame])).
Proof.
  apply digital_silence_never_triggers.
  unfold silent_frame.
  repeat constructor;
    apply Forall_forall; intros s Hs;
    rewrite <- ?repeat_app in Hs; apply repeat_spec in Hs; exact Hs.
Defined.

End PipelineFacts.
